(** * Verification of the one-cycle scheduler and the image-info cache

    Shallow embedding of
      - [dl_ext/pytorch_ext/optim.py]   ([OneCycleScheduler], [annealing_cos])
      - [dl_ext/vision_ext/datasets/kitti/io/image_info.py]
        ([_ImageInfoCache], [load_image_info]).

    Numbers.  For the shape of the schedule Python floats are idealised
    as real numbers: [np.cos] is [cos], [np.pi] is [PI], and [/] on
    floats is real division guarded by an explicit [ZeroDivisionError].
    Where the exact value of a rate matters, module [B64] computes the
    learning rates in binary64, the arithmetic the code runs.  Python
    ints are [Z].

    Effects.  The optimizer is a mutable object shared with the caller:
    it is threaded as explicit state, and it survives a raised exception
    with the writes made so far. *)

From Stdlib Require Import Reals Lra ZArith.
From Stdlib Require Import Floats.
From Stdlib Require Uint63.
From stdpp Require Import gmap strings list pretty.

Open Scope R_scope.

(** ** Python exceptions and the state-and-error monad *)

Inductive exn : Type :=
  | TypeError
  | ZeroDivisionError
  | ValueError (msg : string)
  | KeyError (key : string)
  | IndexError
  | AttributeError (attr : string)
  | FileNotFoundError (path : string).

Inductive result (A : Type) : Type :=
  | Ok (a : A)
  | Raise (e : exn).
Arguments Ok {A} a.
Arguments Raise {A} e.

(** A computation over a mutable store [S]: the store is returned in
    both outcomes. *)
Definition M (S A : Type) : Type := S -> result A * S.

Definition ret {S A} (a : A) : M S A := fun s => (Ok a, s).
Definition raise {S A} (e : exn) : M S A := fun s => (Raise e, s).
Definition bind {S A B} (m : M S A) (k : A -> M S B) : M S B :=
  fun s => match m s with
           | (Ok a, s') => k a s'
           | (Raise e, s') => (Raise e, s')
           end.
Definition get {S} : M S S := fun s => (Ok s, s).
Definition modify {S} (f : S -> S) : M S unit := fun s => (Ok tt, f s).
Definition lift {S A} (r : result A) : M S A := fun s => (r, s).

Declare Scope py_scope.
Delimit Scope py_scope with py.
Notation "x <- m ;; k" := (bind m (fun x => k))
  (at level 100, m at next level, right associativity) : py_scope.
Notation "m ;;; k" := (bind m (fun _ => k))
  (at level 100, right associativity) : py_scope.

(** Pure fallible code: bind on [result]. *)
Definition rbind {A B} (r : result A) (k : A -> result B) : result B :=
  match r with
  | Ok a => k a
  | Raise e => Raise e
  end.

(** A [for] loop that appends one computed value per element. *)
Fixpoint mapR {A B} (f : A -> result B) (l : list A) : result (list B) :=
  match l with
  | [] => Ok []
  | a :: l' => rbind (f a) (fun b => rbind (mapR f l') (fun bs => Ok (b :: bs)))
  end.

(** Python's true division [a / b] on numbers. *)
Definition py_div (a b : R) : result R :=
  if Req_dec_T b 0 then Raise ZeroDivisionError else Ok (a / b).

(** ** Optimizer handle *)

(** A parameter group is a dict of named numeric hyperparameters. *)
Abbreviation group := (gmap string R).

Record optimizer : Type := {
  defaults : gmap string R;
  param_groups : list group;
}.

Definition set_groups (gs : list group) (o : optimizer) : optimizer :=
  {| defaults := defaults o; param_groups := gs |}.

(** [for v, g in zip(vs, groups): g[k] = v].  [zip] stops at the shorter
    sequence; the remaining groups keep their fields. *)
Fixpoint write_field (k : string) (gs : list group) (vs : list R) : list group :=
  match gs, vs with
  | g :: gs', v :: vs' => <[k := v]> g :: write_field k gs' vs'
  | _, _ => gs
  end.

(** [list(map(lambda group: group[k], groups))] *)
Definition read_field (k : string) (gs : list group) : result (list R) :=
  mapR (fun g : group => match g !! k with
                         | Some v => Ok v
                         | None => Raise (KeyError k)
                         end) gs.

(** ** [annealing_cos] *)

Definition annealing_cos (start end_ pct : R) : R :=
  let cos_out := cos (PI * pct) + 1 in
  end_ + (start - end_) / 2 * cos_out.

(** ** [OneCycleScheduler] *)

(** A constructor argument that is "float or list". *)
Inductive param : Type :=
  | Scalar (v : R)
  | Seq (l : list R).

Definition count_msg (expected : nat) (name : string) (got : nat) : string :=
  "expected " +:+ pretty expected +:+ " values for " +:+ name
    +:+ ", got " +:+ pretty got.

Definition _format_param (name : string) (o : optimizer) (p : param)
  : result (list R) :=
  match p with
  | Seq l =>
      if decide (length l ≠ length (param_groups o))
      then Raise (ValueError (count_msg (length (param_groups o)) name (length l)))
      else Ok l
  | Scalar v => Ok (replicate (length (param_groups o)) v)
  end.

(** Attributes assigned by [OneCycleScheduler.__init__] itself. *)
Record one_cycle : Type := {
  max_lrs : list R;
  step_size_up : R;
  step_size_down : R;
  total_size : Z;
  step_ratio : R;
  cycle_momentum : bool;
  base_momentums : list R;
  max_momentums : list R;
}.

(** The scheduler object: the attributes kept by the base class
    ([base_lrs], [last_epoch]) and those of the subclass. *)
Record scheduler : Type := {
  base_lrs : list R;
  last_epoch : Z;
  own : one_cycle;
}.

Definition set_last_epoch (e : Z) (self : scheduler) : scheduler :=
  {| base_lrs := base_lrs self; last_epoch := e; own := own self |}.

Definition momentum_unsupported : string :=
  "optimizer must support momentum with `cycle_momentum` option enabled".

Definition set_field (k : string) (vs : list R) : M optimizer unit :=
  modify (fun o => set_groups (write_field k (param_groups o) vs) o).

(** [self._format_param(name, optimizer, param)] on the current optimizer. *)
Definition format_param (name : string) (p : param) : M optimizer (list R) :=
  (o <- get;; lift (_format_param name o p))%py.

(** The statements of [OneCycleScheduler.__init__] up to the call of the
    base-class constructor.  Returns the local [base_lrs] together with
    the attributes assigned so far.  The argument is typed as an
    optimizer, so the [isinstance] test at the top passes. *)
Definition init_own (max_lr : param) (total_steps : Z) (pct_start div_factor : R)
    (cycle_mom : bool) (base_momentum max_momentum : param) (last_ep : Z)
  : M optimizer (list R * one_cycle) :=
  (start_lr <- lift (match max_lr with
                     | Scalar v => py_div v div_factor
                     | Seq _ => Raise TypeError
                     end);;
   base_lrs_ <- format_param "base_lr" (Scalar start_lr);;
   (if decide (last_ep = (-1)%Z) then set_field "lr" base_lrs_ else ret tt);;;
   max_lrs_ <- format_param "max_lr" max_lr;;
   let up := IZR total_steps * pct_start in
   let down := IZR total_steps - up in
   (if cycle_mom then
      o <- get;;
      (if decide ("momentum" ∈ dom (defaults o)) then ret tt
       else raise (ValueError momentum_unsupported));;;
      base_moms <- format_param "base_momentum" base_momentum;;
      (if decide (last_ep = (-1)%Z) then set_field "momentum" base_moms else ret tt)
    else ret tt);;;
   o <- get;;
   base_moms_ <- lift (read_field "momentum" (param_groups o));;
   max_moms_ <- format_param "max_momentum" max_momentum;;
   ret (base_lrs_,
        {| max_lrs := max_lrs_;
           step_size_up := up;
           step_size_down := down;
           total_size := total_steps;
           step_ratio := pct_start;
           cycle_momentum := cycle_mom;
           base_momentums := base_moms_;
           max_momentums := max_moms_ |}))%py.

(** Modelled from the spec: the constructor of the base class
    [_LRScheduler] (PyTorch's [torch.optim.lr_scheduler]; its code is not
    under src/).  It keeps the per-group base learning rates
    ("base_lr[i] = max_lr[i] / div_factor for every group") and the step
    index ("starts at 0 or at a supplied resume value"; [-1] is the
    default that means a fresh start). *)
Definition LRScheduler_init (base_lrs_ : list R) (last_ep : Z) (o : one_cycle)
  : scheduler :=
  {| base_lrs := base_lrs_;
     last_epoch := if decide (last_ep = (-1)%Z) then 0%Z else last_ep;
     own := o |}.

Definition __init__ (max_lr : param) (total_steps : Z) (pct_start div_factor : R)
    (cycle_mom : bool) (base_momentum max_momentum : param) (last_ep : Z)
  : M optimizer scheduler :=
  (r <- init_own max_lr total_steps pct_start div_factor cycle_mom
          base_momentum max_momentum last_ep;;
   ret (LRScheduler_init (fst r) last_ep (snd r)))%py.

(** [get_lr]: reads the scheduler, writes the momenta into the optimizer
    when they are cycled, and returns the learning rates. *)
Definition get_lr (self : scheduler) : M optimizer (list R) :=
  (x <- lift (py_div (IZR (last_epoch self)) (IZR (total_size (own self))));;
   lrs <- lift (mapR
            (fun '(base_lr, max_lr) =>
               if Rle_dec x (step_ratio (own self)) then
                 rbind (py_div (IZR (last_epoch self))
                               (step_size_up (own self)))
                       (fun pct => Ok (annealing_cos base_lr max_lr pct))
               else
                 rbind (py_div (IZR (last_epoch self) - step_size_up (own self))
                               (step_size_down (own self)))
                       (fun pct => Ok (annealing_cos max_lr base_lr pct)))
            (zip (base_lrs self) (max_lrs (own self))));;
   (if cycle_momentum (own self) then
      momentums <- lift (mapR
            (fun '(base_momentum, max_momentum) =>
               if Rle_dec x (step_ratio (own self)) then
                 rbind (py_div (IZR (last_epoch self))
                               (step_size_up (own self)))
                       (fun pct =>
                          Ok (annealing_cos max_momentum base_momentum pct))
               else
                 rbind (py_div (IZR (last_epoch self) - step_size_up (own self))
                               (step_size_down (own self)))
                       (fun pct =>
                          Ok (annealing_cos base_momentum max_momentum pct)))
            (zip (base_momentums (own self)) (max_momentums (own self))));;
      set_field "momentum" momentums
    else ret tt);;;
   ret lrs)%py.

(** ** The policy in the words of the specification *)

Definition cosine_anneal (start end_ pct : R) : R :=
  end_ + (start - end_) / 2 * (cos (PI * pct) + 1).

Section SpecPolicy.
Variables (total_steps : Z) (pct_start : R) (step_index : Z).

Definition spec_x : R := IZR step_index / IZR total_steps.
Definition spec_up : R := IZR total_steps * pct_start.
Definition spec_down : R := IZR total_steps - spec_up.

Definition spec_lr (base_lr max_lr : R) : R :=
  if Rle_dec spec_x pct_start
  then cosine_anneal base_lr max_lr (IZR step_index / spec_up)
  else cosine_anneal max_lr base_lr ((IZR step_index - spec_up) / spec_down).

Definition spec_momentum (base_momentum max_momentum : R) : R :=
  if Rle_dec spec_x pct_start
  then cosine_anneal max_momentum base_momentum (IZR step_index / spec_up)
  else cosine_anneal base_momentum max_momentum
         ((IZR step_index - spec_up) / spec_down).
End SpecPolicy.

(** The invariants of the data model on a scheduler: a positive horizon,
    a ramp-up fraction strictly between 0 and 1, and the two derived
    phase lengths. *)
Record config_ok (self : scheduler) : Prop := {
  ok_total : (0 < total_size (own self))%Z;
  ok_ratio : 0 < step_ratio (own self) < 1;
  ok_up : step_size_up (own self)
          = IZR (total_size (own self)) * step_ratio (own self);
  ok_down : step_size_down (own self)
            = IZR (total_size (own self)) - step_size_up (own self);
}.

(** The rates and momenta of the current step, as the specification
    words them. *)
Definition lrs_at (self : scheduler) : list R :=
  zip_with (spec_lr (total_size (own self)) (step_ratio (own self))
                    (last_epoch self))
           (base_lrs self) (max_lrs (own self)).

Definition momentums_at (self : scheduler) : list R :=
  zip_with (spec_momentum (total_size (own self)) (step_ratio (own self))
                          (last_epoch self))
           (base_momentums (own self)) (max_momentums (own self)).


(** ** Example objects *)

(** An optimizer with momentum and two parameter groups, as
    [SGD(lr=0.1, momentum=0.9)] over two groups. *)
Definition sgd_group : group := {[ "lr" := 0.1; "momentum" := 0.9 ]}.

Definition sgd2 : optimizer :=
  {| defaults := {[ "lr" := 0.1; "momentum" := 0.9 ]};
     param_groups := [sgd_group; sgd_group] |}.

(** An optimizer kind without a momentum hyperparameter. *)
Definition plain_group : group := {[ "lr" := 0.1 ]}.

Definition plain2 : optimizer :=
  {| defaults := {[ "lr" := 0.1 ]};
     param_groups := [plain_group; plain_group] |}.

(** The scheduler of the scenario: two groups, [max_lr=0.1],
    [total_steps=100], [pct_start=0.3], [div_factor=25]. *)
Definition scenario : scheduler :=
  {| base_lrs := [0.1 / 25; 0.1 / 25];
     last_epoch := 0;
     own := {| max_lrs := [0.1; 0.1];
               step_size_up := IZR 100 * 0.3;
               step_size_down := IZR 100 - IZR 100 * 0.3;
               total_size := 100;
               step_ratio := 0.3;
               cycle_momentum := true;
               base_momentums := [0.85; 0.85];
               max_momentums := [0.95; 0.95] |} |}.

(** ** The image-info cache ([image_info.py]) *)

Module ImageInfo.

(** [np.array(img).shape]: a tuple of ints (height, width, channels). *)
Abbreviation shape := (list Z).

(** An [_ImageInfoCache] object.  [object.__new__] creates it without
    attributes; [post_init] assigns them one by one. *)
Record cache : Type := {
  cache_path : option string;
  root : option string;
  split : option string;
  infos : option (list shape);
}.

Definition new_cache : cache :=
  {| cache_path := None; root := None; split := None; infos := None |}.

(** The process and its file system: the class attribute
    [_ImageInfoCache.instance], the pickle files by path, the number
    of entries of each existing directory, the stored images and the
    home directory. *)
Record world : Type := {
  instance : option cache;
  pickles : gmap string (list shape);
  dirs : gmap string nat;
  images : gmap (string * string * nat) shape;
  home : string;
}.

Definition set_instance (c : option cache) (w : world) : world :=
  {| instance := c; pickles := pickles w; dirs := dirs w;
     images := images w; home := home w |}.

Definition set_pickle (path : string) (l : list shape) (w : world) : world :=
  {| instance := instance w; pickles := <[path := l]> (pickles w);
     dirs := dirs w; images := images w; home := home w |}.

(** [os.path.join] of relative components. *)
Definition join (a b : string) : string := a +:+ "/" +:+ b.

(** Python's [l[i]] on a list, negative indices counting from the end. *)
Definition py_getitem {A} (l : list A) (i : Z) : result A :=
  let j := if decide (i < 0)%Z then (i + Z.of_nat (length l))%Z else i in
  if decide (j < 0)%Z then Raise IndexError
  else match l !! Z.to_nat j with
       | Some a => Ok a
       | None => Raise IndexError
       end.

(** Modelled from the spec: [load_image_2] of the sibling module
    [image_2] (not under src/), which loads image [i] of a split; the
    cache "records each image's shape", so only the shape of the loaded
    array is kept. *)
Definition load_image_2 (root_ split_ : string) (i : nat) : M world shape :=
  fun w => match images w !! (root_, split_, i) with
           | Some sh => (Ok sh, w)
           | None => (Raise (FileNotFoundError (join root_ split_)), w)
           end.

(** A [for] loop over a list that appends one result per element. *)
Fixpoint mapM {S A B} (f : A -> M S B) (l : list A) : M S (list B) :=
  match l with
  | [] => ret []
  | a :: l' => (b <- f a;; bs <- mapM f l';; ret (b :: bs))%py
  end.

(** Reading an attribute of the instance held by the class. *)
Definition self_attr {A} (name : string) (proj : cache -> option A)
  : M world A :=
  fun w => match instance w with
           | Some c => match proj c with
                       | Some a => (Ok a, w)
                       | None => (Raise (AttributeError name), w)
                       end
           | None => (Raise (AttributeError name), w)
           end.

(** Assigning an attribute of the instance held by the class. *)
Definition self_update (f : cache -> cache) : M world unit :=
  modify (fun w => set_instance (f <$> instance w) w).

Definition load_info : M world (list shape) :=
  (path <- self_attr "cache_path" cache_path;;
   w <- get;;
   match pickles w !! path with
   | Some l => ret l
   | None =>
       root_ <- self_attr "root" root;;
       split_ <- self_attr "split" split;;
       let d := join (join (join root_ "object") split_) "image_2" in
       n <- match dirs w !! d with
            | Some n => ret n
            | None => raise (FileNotFoundError d)
            end;;
       img_shapes <- mapM (load_image_2 root_ split_) (seq 0 n);;
       modify (set_pickle path img_shapes);;;
       ret img_shapes
   end)%py.

(** [post_init].  [os.makedirs(cache_dir, exist_ok=True)] has no
    counterpart: directories matter here only for listing the images. *)
Definition post_init (root_ split_ : string) : M world unit :=
  (w <- get;;
   let cache_dir := home w +:+ "/.dl_ext/vision_ext/datasets/kitti/image_info" in
   self_update (fun c =>
     {| cache_path := Some (join cache_dir (split_ +:+ ".pkl"));
        root := root c; split := split c; infos := infos c |});;;
   self_update (fun c =>
     {| cache_path := cache_path c; root := Some root_;
        split := split c; infos := infos c |});;;
   self_update (fun c =>
     {| cache_path := cache_path c; root := root c;
        split := Some split_; infos := infos c |});;;
   l <- load_info;;
   self_update (fun c =>
     {| cache_path := cache_path c; root := root c;
        split := split c; infos := Some l |}))%py.

(** [_ImageInfoCache.get_instance]: the class attribute is assigned
    before [post_init] runs. *)
Definition get_instance (root_ split_ : string) : M world unit :=
  (w <- get;;
   match instance w with
   | None =>
       modify (set_instance (Some new_cache));;;
       post_init root_ split_
   | Some _ => ret tt
   end)%py.

(** The [imgid] argument: an int, or anything else handed to [int()]. *)
Inductive imgid : Type :=
  | IdInt (i : Z)
  | IdStr (s : string).

Section LoadImageInfo.
(** Python's [int()] on a string. *)
Variable int_of_str : string -> result Z.

(** [if not isinstance(imgid, int): imgid = int(imgid)] *)
Definition to_int (id : imgid) : result Z :=
  match id with
  | IdInt i => Ok i
  | IdStr s => int_of_str s
  end.

Definition load_image_info (kitti_root split_ : string) (id : imgid)
  : M world shape :=
  (i <- lift (to_int id);;
   get_instance kitti_root split_;;;
   l <- self_attr "infos" infos;;
   lift (py_getitem l i))%py.

(** A sequence of calls in one process, collecting the outcomes. *)
Fixpoint run_calls (calls : list (string * string * imgid)) (w : world)
  : list (result shape) * world :=
  match calls with
  | [] => ([], w)
  | (r, s, i) :: rest =>
      let '(x, w') := load_image_info r s i w in
      let '(xs, w'') := run_calls rest w' in
      (x :: xs, w'')
  end.
End LoadImageInfo.

(** An [int()] that rejects every string: enough to run calls whose
    [imgid] is already an int. *)
Definition int_rejecting : string -> result Z :=
  fun _ => Raise (ValueError "invalid literal for int()").

(** A computation that leaves the class attribute as it found it. *)
Definition keeps_instance {A} (m : M world A) : Prop :=
  forall w, instance (snd (m w)) = instance w.

(** A process that has not used the cache yet, with the pickle of the
    [training] split already on disk. *)
Definition fresh_process : world :=
  {| instance := None;
     pickles :=
       {[ "/home/u/.dl_ext/vision_ext/datasets/kitti/image_info/training.pkl"
          := [[375; 1242; 3]; [370; 1224; 3]]%Z ]};
     dirs := ∅;
     images := ∅;
     home := "/home/u" |}.

(** The process after a first lookup in the [training] split. *)
Definition after_first_call : world :=
  snd (load_image_info int_rejecting "/data/kitti" "training" (IdInt 0)
         fresh_process).

End ImageInfo.

(** ** The rest of [optim.py] and of [image_info.py] *)

Module Optim.

(** The module-level function [get_lr(optimizer)] of [optim.py] (the
    method of the same name is [get_lr] above): a [for] loop over the
    groups that returns in its first iteration, hence [None] when there
    is no group.  The argument is typed as an optimizer, so the
    [assert] passes. *)
Definition get_lr (o : optimizer) : result (option R) :=
  match param_groups o with
  | [] => Ok None
  | param_group :: _ =>
      match param_group !! "lr" with
      | Some lr => Ok (Some lr)
      | None => Raise (KeyError "lr")
      end
  end.

End Optim.

(** A scheduler whose ramp-up phase is empty ([pct_start = 0]). *)
Definition no_ramp_up : scheduler :=
  {| base_lrs := [0.1 / 25];
     last_epoch := 0;
     own := {| max_lrs := [0.1];
               step_size_up := IZR 100 * 0;
               step_size_down := IZR 100 - IZR 100 * 0;
               total_size := 100;
               step_ratio := 0;
               cycle_momentum := false;
               base_momentums := [0.9];
               max_momentums := [0.95] |} |}.


(** The path of the pickle of a split, and the image directory of a
    split under a root, as [post_init] and [load_info] build them. *)
Definition cache_file (w : ImageInfo.world) (split_ : string) : string :=
  ImageInfo.join
    (ImageInfo.home w +:+ "/.dl_ext/vision_ext/datasets/kitti/image_info")
    (split_ +:+ ".pkl").

Definition image_dir (root_ split_ : string) : string :=
  ImageInfo.join (ImageInfo.join (ImageInfo.join root_ "object") split_)
                 "image_2".

(** The shapes that the loop of [load_info] collects for images
    [0 .. n-1]. *)
Definition scan (w : ImageInfo.world) (root_ split_ : string) (n : nat)
  : result (list ImageInfo.shape) :=
  mapR (fun i => match ImageInfo.images w !! (root_, split_, i) with
                 | Some sh => Ok sh
                 | None => Raise (FileNotFoundError
                                    (ImageInfo.join root_ split_))
                 end)
       (seq 0 n).

(** A new Python process over the same file system: the class attribute
    is [None] again. *)
Definition new_process (w : ImageInfo.world) : ImageInfo.world :=
  ImageInfo.set_instance None w.

(** A process that has not used the cache yet, without any pickle, over
    a data set with two images in the [training] split. *)
Definition unscanned_process : ImageInfo.world :=
  {| ImageInfo.instance := None;
     ImageInfo.pickles := ∅;
     ImageInfo.dirs := {[ "/data/kitti/object/training/image_2" := 2%nat ]};
     ImageInfo.images :=
       {[ ("/data/kitti", "training", 0%nat) := [375; 1242; 3]%Z;
          ("/data/kitti", "training", 1%nat) := [370; 1224; 3]%Z ]};
     ImageInfo.home := "/home/u" |}.

(** ** The learning rates in binary64 *)

#[local] Set Warnings "-inexact-float".

Module B64.

(** [np.pi], the double nearest to pi. *)
Definition np_pi : float := 0x1.921fb54442d18p+1%float.

(** [float(z)] for a Python int with [|z| < 2^63]: the nearest double,
    exact below [2^53]. *)
Definition of_int (z : Z) : float :=
  if (z <? 0)%Z
  then (- of_uint63 (Uint63.of_Z (- z)))%float
  else of_uint63 (Uint63.of_Z z).

(** The ints that are doubles themselves: on them [of_int] is exact,
    and Python's [int / int] is the quotient of the two doubles. *)
Definition exact_int (z : Z) : Prop := (Z.abs z <= 2 ^ 53)%Z.

(** Python's [a / b] on floats. *)
Definition py_div (a b : float) : result float :=
  if (b =? 0)%float then Raise ZeroDivisionError else Ok (a / b)%float.

(** Neither a zero nor a NaN. *)
Definition nonzero (x : float) : bool :=
  negb (x =? 0)%float && (x =? x)%float.

(** The attributes of the scheduler that the learning rates depend on. *)
Record scheduler : Type := {
  base_lrs : list float;
  last_epoch : Z;
  max_lrs : list float;
  step_size_up : float;
  step_size_down : float;
  total_size : Z;
  step_ratio : float;
}.

Definition set_last_epoch (e : Z) (self : scheduler) : scheduler :=
  {| base_lrs := base_lrs self; last_epoch := e; max_lrs := max_lrs self;
     step_size_up := step_size_up self;
     step_size_down := step_size_down self;
     total_size := total_size self; step_ratio := step_ratio self |}.

(** The numbers computed by a fresh construction with a scalar [max_lr]
    on [n] groups ([__init__], lines 86 and 93-98, and [base_lrs] as the
    base class keeps them: the rate written into every group). *)
Definition init (max_lr : float) (total_steps : Z) (pct_start div_factor : float)
    (n : nat) : result scheduler :=
  rbind (py_div max_lr div_factor) (fun start_lr =>
    let up := (of_int total_steps * pct_start)%float in
    Ok {| base_lrs := replicate n start_lr;
          last_epoch := 0;
          max_lrs := replicate n max_lr;
          step_size_up := up;
          step_size_down := (of_int total_steps - up)%float;
          total_size := total_steps;
          step_ratio := pct_start |}).

Section Cos.
(** [np.cos] is numpy's: a parameter. *)
Variable np_cos : float -> float.

Definition annealing_cos (start end_ pct : float) : float :=
  let cos_out := (np_cos (np_pi * pct) + 1)%float in
  (end_ + (start - end_) / 2 * cos_out)%float.

(** The learning rates of [get_lr] (lines 131-138 and 152).  The
    quotient of the two ints [last_epoch / total_size] is taken on their
    doubles, which is Python's result for ints below [2^53]. *)
Definition get_lr (self : scheduler) : result (list float) :=
  rbind (py_div (of_int (last_epoch self)) (of_int (total_size self)))
    (fun x =>
       mapR (fun '(base_lr, max_lr) =>
               if (x <=? step_ratio self)%float then
                 rbind (py_div (of_int (last_epoch self)) (step_size_up self))
                       (fun pct => Ok (annealing_cos base_lr max_lr pct))
               else
                 rbind (py_div (of_int (last_epoch self) - step_size_up self)
                               (step_size_down self))
                       (fun pct => Ok (annealing_cos max_lr base_lr pct)))
            (zip (base_lrs self) (max_lrs self))).
End Cos.

(** A function that takes the values of the cosine at [0.0] and at
    [np.pi]: it shows that what is assumed of [np.cos] below can be
    met. *)
Definition cos_at_ends (x : float) : float :=
  if (x =? 0)%float then 1%float else (-1)%float.

End B64.

(** ** Auxiliary facts *)

(** Unfolding the monad and splitting on the tests of a run. *)
Ltac run_py :=
  unfold __init__, init_own, format_param, set_field, bind, lift, get, modify,
    ret, raise; cbn beta iota.

Ltac case_steps :=
  repeat (match goal with
          | |- context [match ?x with _ => _ end] =>
              lazymatch x with
              | context [match _ with _ => _ end] => fail
              | _ => destruct x eqn:?
              end
          end; cbn beta iota zeta).


Lemma py_div_ok (a b : R) : b <> 0 -> py_div a b = Ok (a / b).
Proof. intros Hb. unfold py_div. destruct (Req_dec_T b 0); [contradiction | reflexivity]. Qed.

Lemma py_div_zero (a : R) : py_div a 0 = Raise ZeroDivisionError.
Proof. unfold py_div. destruct (Req_dec_T 0 0); [reflexivity | congruence]. Qed.

Lemma mapR_ok {A B} (f : A -> result B) (g : A -> B) (l : list A) :
  (forall a, a ∈ l -> f a = Ok (g a)) -> mapR f l = Ok (map g l).
Proof.
  induction l as [| a l IH]; intros Hf; [reflexivity |].
  cbn. rewrite Hf by apply list_elem_of_here. cbn.
  rewrite IH; [reflexivity |].
  intros b Hb. apply Hf. now apply list_elem_of_further.
Qed.

Lemma length_write_field (k : string) (gs : list group) (vs : list R) :
  length (write_field k gs vs) = length gs.
Proof.
  revert vs. induction gs as [| g gs IH]; intros [| v vs]; cbn; auto.
Qed.

Lemma lookup_write_field (k : string) (gs : list group) (vs : list R) (i : nat)
    (g : group) (v : R) :
  gs !! i = Some g -> vs !! i = Some v ->
  write_field k gs vs !! i = Some (<[k := v]> g).
Proof.
  revert vs i. induction gs as [| g0 gs IH]; intros [| v0 vs] [| i]; cbn;
    try discriminate.
  - intros [= ->] [= ->]. reflexivity.
  - apply IH.
Qed.

Lemma read_write_field (k : string) (gs : list group) (vs : list R) :
  length vs = length gs -> read_field k (write_field k gs vs) = Ok vs.
Proof.
  unfold read_field.
  revert vs. induction gs as [| g gs IH]; intros [| v vs]; cbn;
    try discriminate; [reflexivity |].
  intros [= Hlen]. rewrite lookup_insert_eq. cbn.
  now rewrite (IH vs Hlen).
Qed.

Lemma read_field_missing (k : string) (gs : list group) :
  Exists (fun g : group => g !! k = None) gs ->
  read_field k gs = Raise (KeyError k).
Proof.
  unfold read_field. induction 1 as [g gs Hg | g gs _ IH]; cbn.
  - now rewrite Hg.
  - destruct (g !! k); [cbn; now rewrite IH | reflexivity].
Qed.

Lemma read_field_present (k : string) (gs : list group) (vs : list R) :
  read_field k gs = Ok vs <-> map (fun g : group => g !! k) gs = map Some vs.
Proof.
  unfold read_field. revert vs.
  induction gs as [| g gs IH]; intros vs; cbn.
  - split; [intros [= <-]; reflexivity |].
    destruct vs; [reflexivity | discriminate].
  - destruct (g !! k) as [v |] eqn:Hg; cbn.
    + destruct (mapR _ gs) as [vs' |] eqn:Hm; cbn.
      * split.
        -- intros [= <-]. cbn. f_equal. now apply IH.
        -- destruct vs as [| v0 vs0]; cbn; [discriminate |].
           intros [= <- Hrest]. apply IH in Hrest. congruence.
      * split; [discriminate |].
        destruct vs as [| v0 vs0]; cbn; [discriminate |].
        intros [= _ Hrest]. apply IH in Hrest. discriminate.
    + split; [discriminate |].
      destruct vs; cbn; discriminate.
Qed.

Lemma map_zip_uncurry {A B C} (f : A -> B -> C) (l1 : list A) (l2 : list B) :
  map (fun '(a, b) => f a b) (zip l1 l2) = zip_with f l1 l2.
Proof.
  revert l2. induction l1 as [| a l1 IH]; intros [| b l2]; cbn; try reflexivity.
  now rewrite IH.
Qed.

(** ** The step policy computed by [get_lr] *)

Lemma cosine_anneal_eq (start end_ pct : R) :
  annealing_cos start end_ pct = cosine_anneal start end_ pct.
Proof. reflexivity. Qed.

Lemma config_denominators (self : scheduler) :
  config_ok self ->
  IZR (total_size (own self)) <> 0
  /\ step_size_up (own self) <> 0
  /\ step_size_down (own self) <> 0.
Proof.
  intros [HT [Hp0 Hp1] Hup Hdown].
  apply IZR_lt in HT.
  assert (0 < step_size_up (own self)) by (rewrite Hup; nra).
  assert (0 < step_size_down (own self)) by (rewrite Hdown, Hup; nra).
  repeat split; lra.
Qed.

(** What [get_lr] returns and what it leaves in the optimizer. *)
Lemma get_lr_run (self : scheduler) (o : optimizer) :
  config_ok self ->
  get_lr self o
  = (Ok (lrs_at self),
     if cycle_momentum (own self)
     then set_groups (write_field "momentum" (param_groups o) (momentums_at self)) o
     else o).
Proof.
  intros Hok. destruct (config_denominators self Hok) as (HT & Hup & Hdown).
  unfold get_lr, bind, lift, set_field, modify, ret.
  rewrite (py_div_ok _ _ HT).
  rewrite (mapR_ok _ (fun '(b, m) =>
             spec_lr (total_size (own self)) (step_ratio (own self))
                     (last_epoch self) b m)).
  2:{ intros [b m] _. unfold spec_lr, spec_x, spec_down, spec_up.
      rewrite <- (ok_up self Hok), <- (ok_down self Hok).
      destruct (Rle_dec _ _); rewrite py_div_ok by assumption; reflexivity. }
  rewrite map_zip_uncurry.
  destruct (cycle_momentum (own self)); [| reflexivity].
  rewrite (mapR_ok _ (fun '(b, m) =>
             spec_momentum (total_size (own self)) (step_ratio (own self))
                           (last_epoch self) b m)).
  2:{ intros [b m] _. unfold spec_momentum, spec_x, spec_down, spec_up.
      rewrite <- (ok_up self Hok), <- (ok_down self Hok).
      destruct (Rle_dec _ _); rewrite py_div_ok by assumption; reflexivity. }
  rewrite map_zip_uncurry. reflexivity.
Qed.

Lemma config_ok_set_last_epoch (k : Z) (self : scheduler) :
  config_ok self -> config_ok (set_last_epoch k self).
Proof. intros [? ? ? ?]. split; assumption. Qed.

(** ** Values of the policy at the ends of the two phases *)

Lemma cosine_anneal_0 (start end_ : R) : cosine_anneal start end_ 0 = start.
Proof. unfold cosine_anneal. rewrite Rmult_0_r, cos_0. lra. Qed.








Section PolicyFacts.
Variables (T : Z) (p : R).
Hypothesis HT : (0 < T)%Z.
Hypothesis Hp : 0 < p < 1.

Let HTr : 0 < IZR T.
Proof. now apply IZR_lt in HT. Qed.

Lemma spec_x_le (k : Z) : spec_x T k <= p <-> IZR k <= spec_up T p.
Proof.
  unfold spec_x, spec_up. split; intros H.
  - apply (Rmult_le_compat_l (IZR T)) in H; [| lra].
    replace (IZR T * (IZR k / IZR T)) with (IZR k) in H by (field; lra).
    exact H.
  - apply (Rmult_le_reg_l (IZR T)); [lra |].
    replace (IZR T * (IZR k / IZR T)) with (IZR k) by (field; lra).
    exact H.
Qed.

Lemma spec_up_pos : 0 < spec_up T p.
Proof. unfold spec_up. nra. Qed.


Lemma spec_lr_ramp_up (k : Z) (b m : R) :
  IZR k <= spec_up T p ->
  spec_lr T p k b m = cosine_anneal b m (IZR k / spec_up T p).
Proof.
  intros H. unfold spec_lr.
  destruct (Rle_dec _ _) as [_ | Hn]; [reflexivity |].
  exfalso. apply Hn. now apply spec_x_le.
Qed.


Lemma spec_lr_start (b m : R) : spec_lr T p 0 b m = b.
Proof.
  pose proof spec_up_pos.
  rewrite spec_lr_ramp_up by (cbn; lra).
  replace (IZR 0 / spec_up T p) with 0 by (cbn; field; lra).
  apply cosine_anneal_0.
Qed.





End PolicyFacts.

(** ** The constructor *)

Lemma init_ok_inv (max_lr : param) (T : Z) (p d : R) (cm : bool)
    (bm mm : param) (le : Z) (o o' : optimizer) (self : scheduler) :
  __init__ max_lr T p d cm bm mm le o = (Ok self, o') ->
  exists m bms mms,
    max_lr = Scalar m /\ d <> 0
    /\ read_field "momentum" (param_groups o') = Ok bms
    /\ _format_param "max_momentum" o' mm = Ok mms
    /\ self = {| base_lrs := replicate (length (param_groups o)) (m / d);
                 last_epoch := if decide (le = (-1)%Z) then 0%Z else le;
                 own := {| max_lrs := replicate (length (param_groups o)) m;
                           step_size_up := IZR T * p;
                           step_size_down := IZR T - IZR T * p;
                           total_size := T;
                           step_ratio := p;
                           cycle_momentum := cm;
                           base_momentums := bms;
                           max_momentums := mms |} |}.
Proof.
  run_py. destruct max_lr as [m | l]; [| discriminate].
  unfold py_div. destruct (Req_dec_T d 0) as [| Hd]; [discriminate |].
  cbn [_format_param].
  case_steps; try discriminate.
  all: intros [= <- <-]; exists m; eexists; eexists.
  all: cbn [param_groups set_groups] in *.
  all: unfold LRScheduler_init; cbn [fst snd].
  all: rewrite ?length_write_field.
  all: repeat split; try eassumption; try reflexivity.
  all: repeat f_equal; destruct (decide (le = (-1)%Z)); congruence.
Qed.

Lemma init_config_ok (max_lr : param) (T : Z) (p d : R) (cm : bool)
    (bm mm : param) (le : Z) (o o' : optimizer) (self : scheduler) :
  (0 < T)%Z -> 0 < p < 1 ->
  __init__ max_lr T p d cm bm mm le o = (Ok self, o') ->
  config_ok self.
Proof.
  intros HT Hp Hrun.
  destruct (init_ok_inv _ _ _ _ _ _ _ _ _ _ _ Hrun)
    as (m & bms & mms & _ & _ & _ & _ & ->).
  split; cbn; auto.
Qed.

Lemma init_own_resume_frame (max_lr : param) (T : Z) (p d : R) (cm : bool)
    (bm mm : param) (le : Z) (o : optimizer) :
  le <> (-1)%Z -> snd (init_own max_lr T p d cm bm mm le o) = o.
Proof.
  intros Hle. run_py.
  destruct (decide (le = (-1)%Z)) as [| _]; [contradiction |].
  case_steps; reflexivity.
Qed.

Lemma read_field_write_other (k k' : string) (gs : list group) (vs : list R) :
  k <> k' -> read_field k' (write_field k gs vs) = read_field k' gs.
Proof.
  intros Hk. unfold read_field.
  revert vs. induction gs as [| g gs IH]; intros [| v vs]; cbn; try reflexivity.
  rewrite lookup_insert_ne by assumption. now rewrite IH.
Qed.

Lemma init_seq_max_lr (l : list R) (T : Z) (p d : R) (cm : bool)
    (bm mm : param) (le : Z) (o : optimizer) :
  __init__ (Seq l) T p d cm bm mm le o = (Raise TypeError, o).
Proof. reflexivity. Qed.

Lemma init_zero_div_factor (m : R) (T : Z) (p : R) (cm : bool)
    (bm mm : param) (le : Z) (o : optimizer) :
  __init__ (Scalar m) T p 0 cm bm mm le o = (Raise ZeroDivisionError, o).
Proof. run_py. now rewrite py_div_zero. Qed.

(** A fresh start with momentum cycling and scalar arguments. *)
Lemma init_fresh_cycling (m : R) (T : Z) (p d b x : R) (o : optimizer) :
  d <> 0 -> "momentum" ∈ dom (defaults o) ->
  let n := length (param_groups o) in
  __init__ (Scalar m) T p d true (Scalar b) (Scalar x) (-1) o
  = (Ok {| base_lrs := replicate n (m / d);
           last_epoch := 0;
           own := {| max_lrs := replicate n m;
                     step_size_up := IZR T * p;
                     step_size_down := IZR T - IZR T * p;
                     total_size := T;
                     step_ratio := p;
                     cycle_momentum := true;
                     base_momentums := replicate n b;
                     max_momentums := replicate n x |} |},
     set_groups (write_field "momentum"
                   (write_field "lr" (param_groups o) (replicate n (m / d)))
                   (replicate n b)) o).
Proof.
  intros Hd Hmom n. run_py. rewrite (py_div_ok _ _ Hd).
  cbn [_format_param].
  destruct (decide ((-1)%Z = (-1)%Z)) as [_ | Hn]; [| congruence].
  cbn [param_groups set_groups defaults].
  destruct (decide ("momentum" ∈ dom (defaults o))) as [_ | Hn];
    [| contradiction].
  cbn [param_groups set_groups defaults].
  rewrite !length_write_field.
  rewrite read_write_field
    by now rewrite length_replicate, length_write_field.
  reflexivity.
Qed.

(** Any start without momentum cycling, on groups that carry a momentum. *)
Lemma init_no_cycling (m : R) (T : Z) (p d : R) (bm mm : param) (le : Z)
    (o : optimizer) (moms mms : list R) :
  d <> 0 ->
  read_field "momentum" (param_groups o) = Ok moms ->
  _format_param "max_momentum" o mm = Ok mms ->
  let n := length (param_groups o) in
  __init__ (Scalar m) T p d false bm mm le o
  = (Ok {| base_lrs := replicate n (m / d);
           last_epoch := if decide (le = (-1)%Z) then 0%Z else le;
           own := {| max_lrs := replicate n m;
                     step_size_up := IZR T * p;
                     step_size_down := IZR T - IZR T * p;
                     total_size := T;
                     step_ratio := p;
                     cycle_momentum := false;
                     base_momentums := moms;
                     max_momentums := mms |} |},
     if decide (le = (-1)%Z)
     then set_groups (write_field "lr" (param_groups o) (replicate n (m / d))) o
     else o).
Proof.
  intros Hd Hread Hmm n. run_py. rewrite (py_div_ok _ _ Hd).
  unfold LRScheduler_init. cbn [_format_param].
  destruct (decide (le = (-1)%Z)); cbn [param_groups set_groups].
  - rewrite read_field_write_other by discriminate. rewrite Hread.
    replace (_format_param "max_momentum" _ mm) with (Ok mms : result (list R)).
    + now rewrite length_write_field.
    + rewrite <- Hmm. unfold _format_param. cbn [param_groups set_groups].
      now rewrite length_write_field.
  - now rewrite Hread, Hmm.
Qed.

Lemma scenario_config_ok : config_ok scenario.
Proof. split; cbn; [lia | lra | reflexivity | reflexivity]. Qed.

Lemma scenario_constructed :
  __init__ (Scalar 0.1) 100 0.3 25 true (Scalar 0.85) (Scalar 0.95) (-1) sgd2
  = (Ok scenario,
     set_groups (write_field "momentum"
                   (write_field "lr" (param_groups sgd2) [0.1 / 25; 0.1 / 25])
                   [0.85; 0.85]) sgd2).
Proof.
  rewrite init_fresh_cycling; [reflexivity | lra |].
  apply elem_of_dom. eexists. reflexivity.
Qed.

Lemma spec_momentum_mirror (T : Z) (p : R) (k : Z) (base max : R) :
  spec_momentum T p k base max = spec_lr T p k max base.
Proof. reflexivity. Qed.

(** ** The step policy: rates, momenta and their shape over a cycle *)

(** C3.  For every step index (in particular every one in
    [[0, total_steps]]) and every parameter group, the learning rate
    returned by [get_lr] follows the two-phase policy: with
    [x = step_index / total_steps], it is
    [cosine_anneal base_lr max_lr (step_index / step_size_up)] when
    [x <= pct_start], and
    [cosine_anneal max_lr base_lr ((step_index - step_size_up) / step_size_down)]
    otherwise, where
    [cosine_anneal start end pct = end + (start - end) / 2 * (cos (PI * pct) + 1)]. *)
Theorem get_lr_two_phase_policy (self : scheduler) (o : optimizer) (k : Z) :
  config_ok self ->
  fst (get_lr (set_last_epoch k self) o)
  = Ok (zip_with
          (fun base_lr max_lr =>
             if Rle_dec (IZR k / IZR (total_size (own self)))
                        (step_ratio (own self))
             then cosine_anneal base_lr max_lr
                    (IZR k / step_size_up (own self))
             else cosine_anneal max_lr base_lr
                    ((IZR k - step_size_up (own self))
                     / step_size_down (own self)))
          (base_lrs self) (max_lrs (own self)))
  /\ (forall start end_ pct,
        cosine_anneal start end_ pct
        = end_ + (start - end_) / 2 * (cos (PI * pct) + 1)).
Proof.
  intros Hok. split; [| reflexivity].
  rewrite (get_lr_run _ o (config_ok_set_last_epoch k self Hok)).
  cbn [fst]. unfold lrs_at, spec_lr, spec_x, spec_down.
  cbn [set_last_epoch base_lrs last_epoch own].
  rewrite (ok_down self Hok), (ok_up self Hok). reflexivity.
Qed.

Lemma get_lr_two_phase_policy_witness :
  config_ok scenario
  /\ fst (get_lr (set_last_epoch 42 scenario) sgd2)
     = Ok (zip_with
             (fun base_lr max_lr =>
                if Rle_dec (IZR 42 / IZR (total_size (own scenario)))
                           (step_ratio (own scenario))
                then cosine_anneal base_lr max_lr
                       (IZR 42 / step_size_up (own scenario))
                else cosine_anneal max_lr base_lr
                       ((IZR 42 - step_size_up (own scenario))
                        / step_size_down (own scenario)))
             (base_lrs scenario) (max_lrs (own scenario))).
Proof.
  split; [exact scenario_config_ok |].
  exact (proj1 (get_lr_two_phase_policy scenario sgd2 42 scenario_config_ok)).
Defined.

(** C4.  With [cycle_momentum] true, the momentum is annealed in the
    direction opposite to the learning rate: from [max_momentum] to
    [base_momentum] while ramping up, and back while ramping down.  The
    computed momenta are written into the parameter groups in group
    order; the returned list holds the per-group learning rates only. *)
Theorem get_lr_momentum_inverted (self : scheduler) (o : optimizer) (k : Z) :
  config_ok self -> cycle_momentum (own self) = true ->
  let momentum := fun base_momentum max_momentum =>
    if Rle_dec (IZR k / IZR (total_size (own self))) (step_ratio (own self))
    then cosine_anneal max_momentum base_momentum
           (IZR k / step_size_up (own self))
    else cosine_anneal base_momentum max_momentum
           ((IZR k - step_size_up (own self)) / step_size_down (own self)) in
  let o' := snd (get_lr (set_last_epoch k self) o) in
  fst (get_lr (set_last_epoch k self) o) = Ok (lrs_at (set_last_epoch k self))
  /\ o' = set_groups
            (write_field "momentum" (param_groups o)
               (zip_with momentum (base_momentums (own self))
                                  (max_momentums (own self)))) o
  /\ (forall i g bm mm,
        param_groups o !! i = Some g ->
        base_momentums (own self) !! i = Some bm ->
        max_momentums (own self) !! i = Some mm ->
        param_groups o' !! i = Some (<["momentum" := momentum bm mm]> g)).
Proof.
  intros Hok Hcm momentum o'.
  assert (Ho' : o' = set_groups
            (write_field "momentum" (param_groups o)
               (zip_with momentum (base_momentums (own self))
                                  (max_momentums (own self)))) o).
  { subst o'.
    rewrite (get_lr_run _ o (config_ok_set_last_epoch k self Hok)).
    cbn [snd set_last_epoch own]. rewrite Hcm.
    unfold momentums_at, spec_momentum, spec_x, spec_down, momentum.
    cbn [set_last_epoch base_lrs last_epoch own].
    rewrite (ok_down self Hok), (ok_up self Hok). reflexivity. }
  split; [| split].
  - now rewrite (get_lr_run _ o (config_ok_set_last_epoch k self Hok)).
  - exact Ho'.
  - intros i g bm mm Hg Hbm Hmm. rewrite Ho'. cbn [param_groups set_groups].
    apply lookup_write_field; [assumption |].
    apply lookup_zip_with_Some. eauto.
Qed.

Lemma get_lr_momentum_inverted_witness :
  config_ok scenario /\ cycle_momentum (own scenario) = true
  /\ fst (get_lr (set_last_epoch 42 scenario) sgd2)
     = Ok (lrs_at (set_last_epoch 42 scenario)).
Proof.
  split; [exact scenario_config_ok |]. split; [reflexivity |].
  exact (proj1 (get_lr_momentum_inverted scenario sgd2 42
                  scenario_config_ok eq_refl)).
Defined.

Lemma scenario_momentums_at_start : momentums_at scenario = [0.95; 0.95].
Proof.
  unfold momentums_at. cbn [scenario own base_momentums max_momentums
    total_size step_ratio last_epoch zip_with].
  rewrite !spec_momentum_mirror, !spec_lr_start by (lia || lra).
  reflexivity.
Qed.

(** C10.  With [cycle_momentum] true, every run of [get_lr] -- which
    does not advance the step index -- writes the momentum of the current
    step index into every parameter group: reading the learning rates
    changes the optimizer. *)
Theorem get_lr_writes_momentum :
  (forall (self : scheduler) (o : optimizer),
     config_ok self -> cycle_momentum (own self) = true ->
     length (base_momentums (own self)) = length (param_groups o) ->
     length (max_momentums (own self)) = length (param_groups o) ->
     exists lrs o',
       get_lr self o = (Ok lrs, o')
       /\ length (param_groups o') = length (param_groups o)
       /\ read_field "momentum" (param_groups o') = Ok (momentums_at self)
       /\ forall i g, param_groups o !! i = Some g ->
            exists v, momentums_at self !! i = Some v
                      /\ param_groups o' !! i = Some (<["momentum" := v]> g))
  /\ snd (get_lr scenario sgd2) <> sgd2.
Proof.
  split.
  - intros self o Hok Hcm Hb Hm.
    assert (Hlen : length (momentums_at self) = length (param_groups o)).
    { unfold momentums_at. rewrite length_zip_with. lia. }
    eexists _, _. rewrite (get_lr_run self o Hok), Hcm.
    split; [reflexivity |]. cbn [param_groups set_groups].
    split; [apply length_write_field |].
    split; [now apply read_write_field |].
    intros i g Hg.
    destruct (lookup_lt_is_Some_2 (momentums_at self) i) as [v Hv].
    { rewrite Hlen. eapply lookup_lt_Some, Hg. }
    exists v. split; [assumption |]. now apply lookup_write_field.
  - rewrite (get_lr_run scenario sgd2 scenario_config_ok).
    cbn [scenario own cycle_momentum]. fold scenario.
    rewrite scenario_momentums_at_start. cbn [snd].
    intros Heq.
    assert (Hnew : (param_groups
                      (set_groups (write_field "momentum" (param_groups sgd2)
                                     [0.95; 0.95]) sgd2) !! 0%nat)
                   ≫= (fun g : group => g !! "momentum") = Some 0.95)
      by reflexivity.
    assert (Hold : (param_groups sgd2 !! 0%nat)
                   ≫= (fun g : group => g !! "momentum") = Some 0.9)
      by reflexivity.
    rewrite Heq, Hold in Hnew.
    assert (0.9 = 0.95) by congruence. lra.
Qed.

Lemma get_lr_writes_momentum_witness :
  config_ok scenario /\ cycle_momentum (own scenario) = true
  /\ length (base_momentums (own scenario)) = length (param_groups sgd2)
  /\ length (max_momentums (own scenario)) = length (param_groups sgd2)
  /\ exists lrs o',
       get_lr scenario sgd2 = (Ok lrs, o')
       /\ length (param_groups o') = length (param_groups sgd2)
       /\ read_field "momentum" (param_groups o') = Ok (momentums_at scenario)
       /\ forall i g, param_groups sgd2 !! i = Some g ->
            exists v, momentums_at scenario !! i = Some v
                      /\ param_groups o' !! i = Some (<["momentum" := v]> g).
Proof.
  split; [exact scenario_config_ok |]. split; [reflexivity |].
  split; [reflexivity |]. split; [reflexivity |].
  exact (proj1 get_lr_writes_momentum scenario sgd2 scenario_config_ok
           eq_refl eq_refl eq_refl).
Defined.




(** ** The ends of the cycle in binary64 *)

Section Binary64.
Local Open Scope float_scope.

Lemma float_zero_cases (z : float) : (z =? 0) = true -> z = 0 \/ z = -0.
Proof.
  rewrite FloatAxioms.eqb_spec. intros H.
  assert (Hz : exists s, Prim2SF z = S754_zero s).
  { destruct (Prim2SF z) as [s | s | | s m e]; try discriminate H; eauto;
      cbn in H; destruct s; discriminate. }
  destruct Hz as [s Hs].
  rewrite <- (SF2Prim_Prim2SF z), Hs. destruct s; [right | left]; reflexivity.
Qed.

Lemma nonzero_spec (x : float) :
  B64.nonzero x = true ->
  (x =? 0) = false
  /\ exists s, Prim2SF x = S754_infinity s
               \/ exists m e, Prim2SF x = S754_finite s m e.
Proof.
  unfold B64.nonzero. intros [Hz Hn]%andb_prop.
  apply negb_true_iff in Hz. split; [exact Hz |].
  rewrite FloatAxioms.eqb_spec in Hz, Hn.
  destruct (Prim2SF x) as [s | s | | s m e]; try discriminate; eauto.
Qed.

(** [0.0 / t] is a zero when [t] is neither zero nor NaN. *)
Lemma float_zero_div (t : float) :
  B64.nonzero t = true -> (0 / t =? 0) = true.
Proof.
  intros (_ & s & [Ht | (m & e & Ht)])%nonzero_spec;
    rewrite FloatAxioms.eqb_spec, div_spec, Ht; reflexivity.
Qed.

(** A zero is below every positive number. *)
Lemma float_zero_leb (x p : float) :
  (x =? 0) = true -> (0 <? p) = true -> (x <=? p) = true.
Proof.
  intros [-> | ->]%float_zero_cases; rewrite ltb_spec, leb_spec;
    destruct (Prim2SF p) as [s | s | | s m e]; try discriminate;
    destruct s; try discriminate; reflexivity.
Qed.

(** Adding a zero changes nothing but a zero. *)
Lemma float_add_zero (e z : float) :
  B64.nonzero e = true -> (z =? 0) = true -> e + z = e.
Proof.
  intros (_ & s & He)%nonzero_spec Hz. apply Prim2SF_inj. rewrite add_spec.
  destruct (float_zero_cases z Hz) as [-> | ->];
    destruct He as [He | (m & ex & He)]; rewrite He; reflexivity.
Qed.

(** A finite number times zero is a zero. *)
Lemma float_mul_zero (t : float) : is_finite t = true -> (t * 0 =? 0) = true.
Proof.
  intros Hf. rewrite FloatAxioms.eqb_spec, mul_spec.
  unfold is_finite, is_nan, is_infinity in Hf.
  rewrite !FloatAxioms.eqb_spec, abs_spec in Hf.
  destruct (Prim2SF t) as [s | s | | s m e]; cbn in Hf |- *;
    try reflexivity; try discriminate.
  destruct s; discriminate.
Qed.

Lemma b64_py_div_ok (a b : float) :
  (b =? 0) = false -> B64.py_div a b = Ok (a / b).
Proof. intros H. unfold B64.py_div. now rewrite H. Qed.

Lemma mapR_replicate {A B} (f : A -> result B) (n : nat) (a : A) (b : B) :
  f a = Ok b -> mapR f (replicate n a) = Ok (replicate n b).
Proof.
  intros H. induction n as [| n IH]; [reflexivity |].
  cbn. now rewrite H, IH.
Qed.

Section WithCos.
Variable np_cos : float -> float.
Hypothesis cos_zero : np_cos 0 = 1.
Hypothesis cos_neg_zero : np_cos (-0) = 1.
Hypothesis cos_pi : np_cos B64.np_pi = -1.

(** At [pct = 0] the cosine term is [2]. *)
Lemma annealing_cos_at_zero (start end_ pct : float) :
  (pct =? 0) = true ->
  B64.annealing_cos np_cos start end_ pct = end_ + (start - end_) / 2 * 2.
Proof.
  unfold B64.annealing_cos. cbv zeta.
  intros [-> | ->]%float_zero_cases.
  - change (B64.np_pi * 0) with 0%float. now rewrite cos_zero.
  - change (B64.np_pi * -0) with (-0)%float. now rewrite cos_neg_zero.
Qed.

(** At [pct = 1] the cosine term is [0] and the anneal has arrived. *)
Lemma annealing_cos_at_one (start end_ : float) :
  is_finite ((start - end_) / 2) = true -> B64.nonzero end_ = true ->
  B64.annealing_cos np_cos start end_ 1 = end_.
Proof.
  intros Hf He. unfold B64.annealing_cos. cbv zeta.
  change (B64.np_pi * 1) with B64.np_pi. rewrite cos_pi.
  change (-1 + 1) with 0%float.
  apply float_add_zero; [exact He |]. now apply float_mul_zero.
Qed.

Lemma b64_get_lr_ramp_up (self : B64.scheduler) (n : nat) (b m : float) :
  B64.base_lrs self = replicate n b -> B64.max_lrs self = replicate n m ->
  B64.nonzero (B64.of_int (B64.total_size self)) = true ->
  (B64.of_int (B64.last_epoch self) / B64.of_int (B64.total_size self)
   <=? B64.step_ratio self) = true ->
  B64.nonzero (B64.step_size_up self) = true ->
  B64.get_lr np_cos self
  = Ok (replicate n
          (B64.annealing_cos np_cos b m
             (B64.of_int (B64.last_epoch self) / B64.step_size_up self))).
Proof.
  intros Hb Hm [HT _]%nonzero_spec Hx [Hup _]%nonzero_spec.
  unfold B64.get_lr. rewrite (b64_py_div_ok _ _ HT). cbn [rbind].
  rewrite Hb, Hm, zip_with_replicate.
  apply mapR_replicate. now rewrite Hx, (b64_py_div_ok _ _ Hup).
Qed.

Lemma b64_get_lr_ramp_down (self : B64.scheduler) (n : nat) (b m : float) :
  B64.base_lrs self = replicate n b -> B64.max_lrs self = replicate n m ->
  B64.nonzero (B64.of_int (B64.total_size self)) = true ->
  (B64.of_int (B64.last_epoch self) / B64.of_int (B64.total_size self)
   <=? B64.step_ratio self) = false ->
  B64.nonzero (B64.step_size_down self) = true ->
  B64.get_lr np_cos self
  = Ok (replicate n
          (B64.annealing_cos np_cos m b
             ((B64.of_int (B64.last_epoch self) - B64.step_size_up self)
              / B64.step_size_down self))).
Proof.
  intros Hb Hm [HT _]%nonzero_spec Hx [Hdown _]%nonzero_spec.
  unfold B64.get_lr. rewrite (b64_py_div_ok _ _ HT). cbn [rbind].
  rewrite Hb, Hm, zip_with_replicate.
  apply mapR_replicate. now rewrite Hx, (b64_py_div_ok _ _ Hdown).
Qed.

(** Step index 0 of a constructed scheduler. *)
Lemma b64_step_zero (m : float) (T : Z) (p d : float) (n : nat)
    (self : B64.scheduler) :
  B64.init m T p d n = Ok self ->
  B64.nonzero (B64.of_int T) = true -> (0 <? p) = true ->
  B64.nonzero (B64.of_int T * p) = true ->
  B64.get_lr np_cos (B64.set_last_epoch 0 self)
  = Ok (replicate n (m + (m / d - m) / 2 * 2)).
Proof.
  unfold B64.init, B64.py_div.
  destruct (d =? 0); [discriminate |]. cbn [rbind]. intros [= <-] HT Hp Hup.
  rewrite (b64_get_lr_ramp_up _ n (m / d) m); try reflexivity; try assumption.
  - cbn [B64.set_last_epoch B64.last_epoch B64.step_size_up].
    rewrite annealing_cos_at_zero; [reflexivity |].
    now apply float_zero_div.
  - cbn [B64.set_last_epoch B64.last_epoch B64.total_size B64.step_ratio].
    apply float_zero_leb; [| exact Hp]. now apply float_zero_div.
Qed.
End WithCos.
End Binary64.

Section Binary64Cycle.
Local Open Scope float_scope.

(** C1, as the code has it.  In binary64, with [cos(0.0) = cos(-0.0) = 1]
    and [cos(np.pi) = -1] for numpy's cosine, after a fresh construction
    with a scalar [max_lr] and step counts that are doubles themselves:
    [base_lr] is the double [max_lr / div_factor];
    at step index 0 the rate of every group is the double
    [max_lr + (base_lr - max_lr) / 2 * 2], which is [base_lr] up to
    rounding only; at a step index with [step_index / total_steps <=
    pct_start] (the ramp-up branch, boundary included) whose quotient by
    [step_size_up] is 1 the rate is exactly [max_lr]; at [total_steps],
    where the quotient by [step_size_down] is 1, it is exactly [base_lr].
    With two groups, [max_lr = 0.1], [total_steps = 100],
    [pct_start = 0.3] and [div_factor = 25], [base_lr] is [0.004] and the
    list is [[0.0040000000000000036, 0.0040000000000000036]] at 0,
    [[0.1, 0.1]] at 30 and [[0.004, 0.004]] at 100. *)
Theorem one_cycle_endpoints_binary64 (np_cos : float -> float) :
  np_cos 0 = 1 -> np_cos (-0) = 1 -> np_cos B64.np_pi = -1 ->
  (forall (m : float) (T : Z) (p d : float) (n : nat) (self : B64.scheduler),
     B64.init m T p d n = Ok self -> B64.exact_int T ->
     let base := m / d in
     let up := B64.of_int T * p in
     let down := B64.of_int T - up in
     let lrs_at := fun k => B64.get_lr np_cos (B64.set_last_epoch k self) in
     B64.base_lrs self = replicate n base
     /\ B64.max_lrs self = replicate n m
     /\ B64.step_size_up self = up
     /\ B64.step_size_down self = down
     /\ (B64.nonzero (B64.of_int T) = true -> (0 <? p) = true ->
         B64.nonzero up = true ->
         lrs_at 0%Z = Ok (replicate n (m + (base - m) / 2 * 2)))
     /\ (forall k : Z,
           B64.exact_int k ->
           B64.nonzero (B64.of_int T) = true ->
           (B64.of_int k / B64.of_int T <=? p) = true ->
           B64.nonzero up = true -> B64.of_int k / up = 1 ->
           is_finite ((base - m) / 2) = true -> B64.nonzero m = true ->
           lrs_at k = Ok (replicate n m))
     /\ (B64.nonzero (B64.of_int T) = true ->
         (B64.of_int T / B64.of_int T <=? p) = false ->
         B64.nonzero down = true -> (B64.of_int T - up) / down = 1 ->
         is_finite ((m - base) / 2) = true -> B64.nonzero base = true ->
         lrs_at T = Ok (replicate n base)))
  /\ (exists self : B64.scheduler,
        B64.init 0.1 100 0.3 25 2 = Ok self
        /\ B64.base_lrs self = [0.004; 0.004]
        /\ B64.get_lr np_cos (B64.set_last_epoch 0 self)
           = Ok [0.0040000000000000036; 0.0040000000000000036]
        /\ B64.get_lr np_cos (B64.set_last_epoch 30 self) = Ok [0.1; 0.1]
        /\ B64.get_lr np_cos (B64.set_last_epoch 100 self)
           = Ok [0.004; 0.004])
  /\ (0.0040000000000000036 =? 0.004) = false.
Proof.
  intros Hc0 Hcn Hcpi.
  assert (General : forall (m : float) (T : Z) (p d : float) (n : nat)
                      (self : B64.scheduler),
     B64.init m T p d n = Ok self -> B64.exact_int T ->
     let base := m / d in
     let up := B64.of_int T * p in
     let down := B64.of_int T - up in
     let lrs_at := fun k => B64.get_lr np_cos (B64.set_last_epoch k self) in
     B64.base_lrs self = replicate n base
     /\ B64.max_lrs self = replicate n m
     /\ B64.step_size_up self = up
     /\ B64.step_size_down self = down
     /\ (B64.nonzero (B64.of_int T) = true -> (0 <? p) = true ->
         B64.nonzero up = true ->
         lrs_at 0%Z = Ok (replicate n (m + (base - m) / 2 * 2)))
     /\ (forall k : Z,
           B64.exact_int k ->
           B64.nonzero (B64.of_int T) = true ->
           (B64.of_int k / B64.of_int T <=? p) = true ->
           B64.nonzero up = true -> B64.of_int k / up = 1 ->
           is_finite ((base - m) / 2) = true -> B64.nonzero m = true ->
           lrs_at k = Ok (replicate n m))
     /\ (B64.nonzero (B64.of_int T) = true ->
         (B64.of_int T / B64.of_int T <=? p) = false ->
         B64.nonzero down = true -> (B64.of_int T - up) / down = 1 ->
         is_finite ((m - base) / 2) = true -> B64.nonzero base = true ->
         lrs_at T = Ok (replicate n base))).
  { intros m T p d n self Hinit _ base up down lrs_at.
    pose proof (b64_step_zero np_cos Hc0 Hcn m T p d n self Hinit) as Hzero.
    unfold B64.init, B64.py_div in Hinit.
    destruct (d =? 0); [discriminate |]. cbn [rbind] in Hinit.
    injection Hinit as <-.
    cbn [B64.base_lrs B64.max_lrs B64.step_size_up B64.step_size_down].
    do 4 (split; [reflexivity |]).
    split; [exact Hzero |]. split.
    - intros k _ HT Hx Hup Hpct Hfin Hm. subst lrs_at. cbv beta.
      rewrite (b64_get_lr_ramp_up np_cos _ n base m);
        try reflexivity; try assumption.
      change (Ok (replicate n (B64.annealing_cos np_cos base m
                                 (B64.of_int k / up)))
              = Ok (replicate n m)).
      rewrite Hpct. f_equal. f_equal.
      now apply annealing_cos_at_one.
    - intros HT Hx Hdown Hpct Hfin Hb. subst lrs_at. cbv beta.
      rewrite (b64_get_lr_ramp_down np_cos _ n base m);
        try reflexivity; try assumption.
      change (Ok (replicate n (B64.annealing_cos np_cos m base
                                 ((B64.of_int T - up) / down)))
              = Ok (replicate n base)).
      rewrite Hpct. f_equal. f_equal.
      now apply annealing_cos_at_one. }
  split; [exact General |]. split; [| reflexivity].
  destruct (B64.init 0.1 100 0.3 25 2) as [self |] eqn:Hinit;
    [| vm_compute in Hinit; discriminate].
  exists self.
  assert (Hexact : forall z, (Z.abs z <= 100)%Z -> B64.exact_int z)
    by (unfold B64.exact_int; lia).
  destruct (General _ _ _ _ _ _ Hinit (Hexact 100%Z ltac:(lia)))
    as (Hb & _ & _ & _ & H0 & Hpeak & Hend).
  split; [reflexivity |]. split; [exact Hb |].
  split; [| split].
  - rewrite H0; reflexivity.
  - rewrite (Hpeak 30%Z (Hexact 30%Z ltac:(lia))); reflexivity.
  - rewrite Hend; reflexivity.
Qed.

Lemma one_cycle_endpoints_binary64_witness :
  B64.cos_at_ends 0 = 1 /\ B64.cos_at_ends (-0) = 1
  /\ B64.cos_at_ends B64.np_pi = -1
  /\ exists self : B64.scheduler,
       B64.init 0.1 100 0.3 25 2 = Ok self
       /\ B64.base_lrs self = [0.004; 0.004]
       /\ B64.get_lr B64.cos_at_ends (B64.set_last_epoch 0 self)
          = Ok [0.0040000000000000036; 0.0040000000000000036]
       /\ B64.get_lr B64.cos_at_ends (B64.set_last_epoch 30 self)
          = Ok [0.1; 0.1]
       /\ B64.get_lr B64.cos_at_ends (B64.set_last_epoch 100 self)
          = Ok [0.004; 0.004].
Proof.
  split; [reflexivity |]. split; [reflexivity |]. split; [reflexivity |].
  exact (proj1 (proj2 (one_cycle_endpoints_binary64 B64.cos_at_ends
                         eq_refl eq_refl eq_refl))).
Defined.

(** C1 as stated fails on its own scenario: whatever the cosine is away
    from [0.0], the rate computed at step index 0 is
    [0.0040000000000000036], not the [base_lr] [0.004]. *)
Lemma step_zero_rate_is_rounded :
  (forall np_cos : float -> float,
     np_cos 0 = 1 -> np_cos (-0) = 1 ->
     exists self : B64.scheduler,
       B64.init 0.1 100 0.3 25 2 = Ok self
       /\ B64.base_lrs self = [0.004; 0.004]
       /\ B64.get_lr np_cos (B64.set_last_epoch 0 self)
          = Ok [0.0040000000000000036; 0.0040000000000000036])
  /\ (0.0040000000000000036 =? 0.004) = false
  /\ (0.1 + (0.004 - 0.1) =? 0.0040000000000000036) = true.
Proof.
  split; [| split; reflexivity].
  intros np_cos Hc0 Hcn.
  destruct (B64.init 0.1 100 0.3 25 2) as [self |] eqn:Hinit;
    [| vm_compute in Hinit; discriminate].
  exists self. split; [reflexivity |].
  pose proof (b64_step_zero np_cos Hc0 Hcn _ _ _ _ _ _ Hinit) as H0.
  unfold B64.init, B64.py_div in Hinit.
  change (25 =? 0) with false in Hinit. cbn [rbind] in Hinit.
  injection Hinit as <-.
  split; [reflexivity |]. rewrite H0; reflexivity.
Qed.
End Binary64Cycle.

(** ** Construction: validation, resumption and the momentum snapshot *)

(** C6.  When resuming ([last_epoch] different from [-1]) the statements
    of the constructor write nothing into the optimizer -- the [lr] and
    [momentum] fields of the groups are as before -- and the
    [base_momentums] kept for later steps are the momentum values found
    in the groups, whatever [base_momentum] was passed. *)
Theorem resume_skips_writes_keeps_snapshot (max_lr : param) (T : Z) (p d : R)
    (cm : bool) (bm mm : param) (le : Z) (o : optimizer) :
  le <> (-1)%Z ->
  snd (init_own max_lr T p d cm bm mm le o) = o
  /\ forall self o',
       __init__ max_lr T p d cm bm mm le o = (Ok self, o') ->
       o' = o
       /\ last_epoch self = le
       /\ map (fun g : group => g !! "momentum") (param_groups o)
          = map Some (base_momentums (own self)).
Proof.
  intros Hle.
  pose proof (init_own_resume_frame max_lr T p d cm bm mm le o Hle) as Hframe.
  split; [exact Hframe |].
  intros self o' Hrun.
  assert (Ho : o' = o).
  { rewrite <- Hframe. unfold __init__, bind, ret in Hrun.
    destruct (init_own max_lr T p d cm bm mm le o) as [[r | e] s];
      cbn [snd]; [now injection Hrun | discriminate Hrun]. }
  destruct (init_ok_inv _ _ _ _ _ _ _ _ _ _ _ Hrun)
    as (m & bms & mms & _ & _ & Hread & _ & ->).
  subst o'. cbn [last_epoch own base_momentums].
  split; [reflexivity |]. split.
  - destruct (decide (le = (-1)%Z)); [contradiction | reflexivity].
  - now apply read_field_present.
Qed.

Lemma resume_skips_writes_keeps_snapshot_witness :
  (40 <> -1)%Z
  /\ snd (init_own (Scalar 0.1) 100 0.3 25 true (Scalar 0.85) (Scalar 0.95)
            40 sgd2) = sgd2
  /\ exists self,
       __init__ (Scalar 0.1) 100 0.3 25 false (Scalar 0.85) (Scalar 0.95)
         40 sgd2 = (Ok self, sgd2)
       /\ base_momentums (own self) = [0.9; 0.9].
Proof.
  assert (H : (40 <> -1)%Z) by discriminate.
  split; [exact H |].
  split.
  - exact (proj1 (resume_skips_writes_keeps_snapshot (Scalar 0.1) 100 0.3 25
                    true (Scalar 0.85) (Scalar 0.95) 40 sgd2 H)).
  - eexists. split.
    + rewrite (init_no_cycling 0.1 100 0.3 25 (Scalar 0.85) (Scalar 0.95) 40
                 sgd2 [0.9; 0.9] [0.95; 0.95]); [reflexivity | lra | |];
        reflexivity.
    + reflexivity.
Defined.

(** C7.  With [cycle_momentum] true and an optimizer whose defaults have
    no momentum, construction never succeeds; once [max_lr / div_factor]
    has been computed the error is the "momentum unsupported"
    [ValueError], raised by the constructor. *)
Theorem cycling_needs_momentum_support (max_lr : param) (T : Z) (p d : R)
    (bm mm : param) (le : Z) (o : optimizer) :
  "momentum" ∉ dom (defaults o) ->
  (exists e, fst (__init__ max_lr T p d true bm mm le o) = Raise e)
  /\ (forall m, max_lr = Scalar m -> d <> 0 ->
        fst (__init__ max_lr T p d true bm mm le o)
        = Raise (ValueError momentum_unsupported)).
Proof.
  intros Hno.
  assert (Hscalar : forall m, d <> 0 ->
            fst (__init__ (Scalar m) T p d true bm mm le o)
            = Raise (ValueError momentum_unsupported)).
  { intros m Hd. run_py. rewrite (py_div_ok _ _ Hd). cbn [_format_param].
    destruct (decide (le = (-1)%Z)); cbn [param_groups set_groups defaults];
      (destruct (decide ("momentum" ∈ dom (defaults o)));
       [contradiction | reflexivity]). }
  split.
  - destruct max_lr as [m | l].
    + destruct (Req_dec_T d 0) as [-> | Hd].
      * rewrite init_zero_div_factor. eauto.
      * rewrite (Hscalar m Hd). eauto.
    + rewrite init_seq_max_lr. eauto.
  - intros m -> Hd. now apply Hscalar.
Qed.

Lemma cycling_needs_momentum_support_witness :
  ("momentum" ∉ dom (defaults plain2))
  /\ fst (__init__ (Scalar 0.1) 100 0.3 25 true (Scalar 0.85) (Scalar 0.95)
            (-1) plain2)
     = Raise (ValueError momentum_unsupported).
Proof.
  assert (H : "momentum" ∉ dom (defaults plain2)).
  { intros [v Hv]%elem_of_dom. discriminate Hv. }
  split; [exact H |].
  apply (proj2 (cycling_needs_momentum_support (Scalar 0.1) 100 0.3 25
                  (Scalar 0.85) (Scalar 0.95) (-1) plain2 H) 0.1 eq_refl).
  lra.
Defined.

(** C9.  The constructor reads the momentum field of every group for the
    base-momentum snapshot whether or not [cycle_momentum] is set: with
    [cycle_momentum] false and a group without a momentum field,
    construction never succeeds, and the error is the [KeyError] of that
    read. *)
Theorem snapshot_read_without_cycling (max_lr : param) (T : Z) (p d : R)
    (bm mm : param) (le : Z) (o : optimizer) :
  Exists (fun g : group => g !! "momentum" = None) (param_groups o) ->
  (exists e, fst (__init__ max_lr T p d false bm mm le o) = Raise e)
  /\ (forall m, max_lr = Scalar m -> d <> 0 ->
        fst (__init__ max_lr T p d false bm mm le o)
        = Raise (KeyError "momentum")).
Proof.
  intros Hmiss.
  assert (Hscalar : forall m, d <> 0 ->
            fst (__init__ (Scalar m) T p d false bm mm le o)
            = Raise (KeyError "momentum")).
  { intros m Hd. run_py. rewrite (py_div_ok _ _ Hd). cbn [_format_param].
    destruct (decide (le = (-1)%Z)); cbn [param_groups set_groups].
    - rewrite read_field_write_other by discriminate.
      now rewrite (read_field_missing _ _ Hmiss).
    - now rewrite (read_field_missing _ _ Hmiss). }
  split.
  - destruct max_lr as [m | l].
    + destruct (Req_dec_T d 0) as [-> | Hd].
      * rewrite init_zero_div_factor. eauto.
      * rewrite (Hscalar m Hd). eauto.
    + rewrite init_seq_max_lr. eauto.
  - intros m -> Hd. now apply Hscalar.
Qed.

Lemma snapshot_read_without_cycling_witness :
  Exists (fun g : group => g !! "momentum" = None) (param_groups plain2)
  /\ fst (__init__ (Scalar 0.1) 100 0.3 25 false (Scalar 0.85) (Scalar 0.95)
            (-1) plain2)
     = Raise (KeyError "momentum").
Proof.
  assert (H : Exists (fun g : group => g !! "momentum" = None)
                     (param_groups plain2)).
  { apply Exists_cons_hd. reflexivity. }
  split; [exact H |].
  apply (proj2 (snapshot_read_without_cycling (Scalar 0.1) 100 0.3 25
                  (Scalar 0.85) (Scalar 0.95) (-1) plain2 H) 0.1 eq_refl).
  lra.
Defined.

Lemma read_field_total (k : string) (gs : list group) :
  Forall (fun g : group => is_Some (g !! k)) gs ->
  exists vs, read_field k gs = Ok vs.
Proof.
  unfold read_field. induction 1 as [| g gs [v Hv] _ [vs IH]]; cbn.
  - eauto.
  - rewrite Hv, IH. cbn. eauto.
Qed.

Lemma write_field_keeps (k k' : string) (gs : list group) (vs : list R) :
  Forall (fun g : group => is_Some (g !! k')) gs ->
  Forall (fun g : group => is_Some (g !! k')) (write_field k gs vs).
Proof.
  intros H. revert vs. induction H as [| g gs Hg Hgs IH]; intros [| v vs]; cbn;
    try (constructor; assumption).
  constructor; [| apply IH].
  destruct (decide (k = k')) as [-> | Hne].
  - rewrite lookup_insert_eq. eauto.
  - now rewrite lookup_insert_ne.
Qed.

Lemma format_scalar (name : string) (o : optimizer) (v : R) :
  _format_param name o (Scalar v) = Ok (replicate (length (param_groups o)) v).
Proof. reflexivity. Qed.

Lemma format_seq_mismatch (name : string) (o : optimizer) (l : list R) :
  length l <> length (param_groups o) ->
  _format_param name o (Seq l)
  = Raise (ValueError (count_msg (length (param_groups o)) name (length l))).
Proof.
  intros H. unfold _format_param.
  destruct (decide (length l ≠ length (param_groups o))); [reflexivity |].
  contradiction.
Qed.

Lemma format_seq_match (name : string) (o : optimizer) (l : list R) :
  length l = length (param_groups o) -> _format_param name o (Seq l) = Ok l.
Proof.
  intros H. unfold _format_param.
  destruct (decide (length l ≠ length (param_groups o))); [contradiction |].
  reflexivity.
Qed.

Lemma format_same_length (name : string) (o o' : optimizer) (q : param) :
  length (param_groups o') = length (param_groups o) ->
  _format_param name o' q = _format_param name o q.
Proof. intros H. unfold _format_param. now rewrite H. Qed.

(** A mismatched [max_momentum] is reported once the constructor reaches
    its validation. *)
Lemma init_max_momentum_mismatch (m : R) (T : Z) (p d : R) (cm : bool)
    (bm : param) (l : list R) (le : Z) (o : optimizer) :
  d <> 0 ->
  Forall (fun g : group => is_Some (g !! "momentum")) (param_groups o) ->
  (cm = true ->
   "momentum" ∈ dom (defaults o)
   /\ exists bms, _format_param "base_momentum" o bm = Ok bms) ->
  length l <> length (param_groups o) ->
  fst (__init__ (Scalar m) T p d cm bm (Seq l) le o)
  = Raise (ValueError
             (count_msg (length (param_groups o)) "max_momentum" (length l))).
Proof.
  intros Hd Hmom Hcm Hlen. run_py. rewrite (py_div_ok _ _ Hd).
  pose (n := length (param_groups o)).
  assert (Hfmt : forall o', length (param_groups o') = length (param_groups o) ->
            _format_param "max_momentum" o' (Seq l)
            = Raise (ValueError (count_msg n "max_momentum" (length l)))).
  { intros o' Ho'. rewrite (format_same_length _ o o' _ Ho').
    now apply format_seq_mismatch. }
  assert (Hfmt0 : _format_param "max_momentum" o (Seq l)
            = Raise (ValueError (count_msg n "max_momentum" (length l))))
    by now apply format_seq_mismatch.
  rewrite !format_scalar.
  destruct cm.
  - destruct (Hcm eq_refl) as [Hdef [bms Hbms]].
    destruct (decide (le = (-1)%Z)); cbn [param_groups set_groups defaults];
      (destruct (decide ("momentum" ∈ dom (defaults o)));
       [| contradiction]).
    + rewrite !format_scalar.
      rewrite (format_same_length "base_momentum" o)
        by (cbn [param_groups set_groups]; apply length_write_field).
      rewrite Hbms. cbn [param_groups set_groups].
      destruct (read_field_total "momentum"
                  (write_field "momentum"
                     (write_field "lr" (param_groups o)
                        (replicate (length (param_groups o)) (m / d))) bms))
        as [vs Hvs].
      { now do 2 apply write_field_keeps. }
      rewrite Hvs, Hfmt
        by (cbn [param_groups set_groups]; now rewrite !length_write_field).
      reflexivity.
    + rewrite Hbms.
      destruct (read_field_total "momentum" (param_groups o) Hmom) as [vs Hvs].
      rewrite Hvs, Hfmt0. reflexivity.
  - destruct (decide (le = (-1)%Z)); cbn [param_groups set_groups].
    + destruct (read_field_total "momentum"
                  (write_field "lr" (param_groups o)
                     (replicate (length (param_groups o)) (m / d))))
        as [vs Hvs].
      { now apply write_field_keeps. }
      rewrite Hvs, Hfmt
        by (cbn [param_groups set_groups]; now rewrite !length_write_field).
      reflexivity.
    + destruct (read_field_total "momentum" (param_groups o) Hmom) as [vs Hvs].
      rewrite Hvs, Hfmt0. reflexivity.
Qed.

Lemma format_length (name : string) (o : optimizer) (q : param) (vs : list R) :
  _format_param name o q = Ok vs -> length vs = length (param_groups o).
Proof.
  destruct q as [v | l]; cbn.
  - intros [= <-]. apply length_replicate.
  - destruct (decide (length l ≠ length (param_groups o))) as [| Heq];
      [discriminate |].
    intros [= <-]. apply dec_stable in Heq. exact Heq.
Qed.

(** A mismatched [base_momentum] is reported when momentum is cycled. *)
Lemma init_base_momentum_mismatch (m : R) (T : Z) (p d : R) (l : list R)
    (mm : param) (le : Z) (o : optimizer) :
  d <> 0 -> "momentum" ∈ dom (defaults o) ->
  length l <> length (param_groups o) ->
  fst (__init__ (Scalar m) T p d true (Seq l) mm le o)
  = Raise (ValueError
             (count_msg (length (param_groups o)) "base_momentum" (length l))).
Proof.
  intros Hd Hdef Hlen. run_py. rewrite (py_div_ok _ _ Hd).
  destruct (decide (le = (-1)%Z)); cbn [param_groups set_groups defaults];
    rewrite !format_scalar;
    (destruct (decide ("momentum" ∈ dom (defaults o))); [| contradiction]).
  - rewrite (format_same_length "base_momentum" o)
      by (cbn [param_groups set_groups]; apply length_write_field).
    now rewrite format_seq_mismatch.
  - now rewrite format_seq_mismatch.
Qed.

(** Without momentum cycling [base_momentum] is never looked at. *)
Lemma init_ignores_base_momentum (max_lr : param) (T : Z) (p d : R)
    (bm bm' mm : param) (le : Z) (o : optimizer) :
  __init__ max_lr T p d false bm mm le o
  = __init__ max_lr T p d false bm' mm le o.
Proof. reflexivity. Qed.

(** On a fresh start with momentum cycling the snapshot is the formatted
    [base_momentum] that was just written. *)
Lemma init_fresh_cycling_snapshot (max_lr : param) (T : Z) (p d : R)
    (bm mm : param) (o o' : optimizer) (self : scheduler) :
  __init__ max_lr T p d true bm mm (-1) o = (Ok self, o') ->
  _format_param "base_momentum" o bm = Ok (base_momentums (own self))
  /\ _format_param "max_momentum" o mm = Ok (max_momentums (own self)).
Proof.
  run_py. destruct max_lr as [m | l0]; [| discriminate].
  unfold py_div. destruct (Req_dec_T d 0); [discriminate |].
  rewrite !format_scalar.
  destruct (decide ((-1)%Z = (-1)%Z)); [| congruence].
  cbn [param_groups set_groups defaults]. rewrite !format_scalar.
  destruct (decide ("momentum" ∈ dom (defaults o))); [| discriminate].
  rewrite (format_same_length "base_momentum" o)
    by (cbn [param_groups set_groups]; apply length_write_field).
  destruct (_format_param "base_momentum" o bm) as [bms |] eqn:Hbm;
    [| discriminate].
  cbn [param_groups set_groups].
  rewrite read_write_field
    by (rewrite length_write_field; eapply format_length, Hbm).
  rewrite (format_same_length "max_momentum" o)
    by (cbn [param_groups set_groups]; now rewrite !length_write_field).
  destruct (_format_param "max_momentum" o mm) as [mms |] eqn:Hmm;
    [| discriminate].
  intros [= <- _]. cbn. split; reflexivity.
Qed.

(** Whenever construction succeeds, [max_momentum] was accepted. *)
Lemma init_max_momentum_accepted (max_lr : param) (T : Z) (p d : R)
    (cm : bool) (bm mm : param) (le : Z) (o o' : optimizer)
    (self : scheduler) :
  __init__ max_lr T p d cm bm mm le o = (Ok self, o') ->
  _format_param "max_momentum" o mm = Ok (max_momentums (own self)).
Proof.
  intros Hrun.
  destruct (init_ok_inv _ _ _ _ _ _ _ _ _ _ _ Hrun)
    as (m & bms & mms & _ & _ & Hread & Hmm & ->).
  cbn [own max_momentums]. rewrite <- Hmm.
  symmetry. apply format_same_length.
  apply (f_equal snd) in Hrun. cbn [snd] in Hrun. subst o'.
  clear. run_py.
  case_steps; cbn [snd param_groups set_groups];
    rewrite ?length_write_field; reflexivity.
Qed.

(** C2, as the code has it.  [max_momentum] (always) and [base_momentum]
    (when momentum is cycled on an optimizer that supports it) are either
    a scalar, broadcast to every group, or a sequence with one value per
    group; when the constructor reaches the validation of one of them and
    the sequence has another length, it raises the [ValueError] that names
    the parameter, the expected and the actual count.  Without momentum
    cycling [base_momentum] is not looked at.  A scalar [max_lr] is
    broadcast to every group. *)
Theorem count_mismatch_when_validated :
  (forall name o v,
     _format_param name o (Scalar v)
     = Ok (replicate (length (param_groups o)) v))
  /\ (forall name o l,
        length l = length (param_groups o) ->
        _format_param name o (Seq l) = Ok l)
  /\ (forall name o l,
        length l <> length (param_groups o) ->
        _format_param name o (Seq l)
        = Raise (ValueError
                   (count_msg (length (param_groups o)) name (length l))))
  /\ (forall max_lr T p d cm bm mm le o o' self,
        __init__ max_lr T p d cm bm mm le o = (Ok self, o') ->
        (exists m, max_lr = Scalar m
                   /\ max_lrs (own self)
                      = replicate (length (param_groups o)) m)
        /\ _format_param "max_momentum" o mm = Ok (max_momentums (own self)))
  /\ (forall max_lr T p d bm mm o o' self,
        __init__ max_lr T p d true bm mm (-1) o = (Ok self, o') ->
        _format_param "base_momentum" o bm = Ok (base_momentums (own self)))
  /\ (forall m T p d cm bm l le o,
        d <> 0 ->
        Forall (fun g : group => is_Some (g !! "momentum")) (param_groups o) ->
        (cm = true ->
         "momentum" ∈ dom (defaults o)
         /\ exists bms, _format_param "base_momentum" o bm = Ok bms) ->
        length l <> length (param_groups o) ->
        fst (__init__ (Scalar m) T p d cm bm (Seq l) le o)
        = Raise (ValueError
                   (count_msg (length (param_groups o)) "max_momentum"
                              (length l))))
  /\ (forall m T p d l mm le o,
        d <> 0 -> "momentum" ∈ dom (defaults o) ->
        length l <> length (param_groups o) ->
        fst (__init__ (Scalar m) T p d true (Seq l) mm le o)
        = Raise (ValueError
                   (count_msg (length (param_groups o)) "base_momentum"
                              (length l))))
  /\ (forall max_lr T p d bm bm' mm le o,
        __init__ max_lr T p d false bm mm le o
        = __init__ max_lr T p d false bm' mm le o).
Proof.
  split; [exact format_scalar |].
  split; [exact format_seq_match |].
  split; [exact format_seq_mismatch |].
  split.
  { intros max_lr T p d cm bm mm le o o' self Hrun. split.
    - destruct (init_ok_inv _ _ _ _ _ _ _ _ _ _ _ Hrun)
        as (m & bms & mms & -> & _ & _ & _ & ->).
      exists m. split; reflexivity.
    - eapply init_max_momentum_accepted, Hrun. }
  split.
  { intros max_lr T p d bm mm o o' self Hrun.
    eapply init_fresh_cycling_snapshot, Hrun. }
  split; [exact init_max_momentum_mismatch |].
  split; [exact init_base_momentum_mismatch |].
  exact init_ignores_base_momentum.
Qed.

Lemma count_mismatch_when_validated_witness :
  25 <> 0
  /\ "momentum" ∈ dom (defaults sgd2)
  /\ Forall (fun g : group => is_Some (g !! "momentum")) (param_groups sgd2)
  /\ length [0.85; 0.85; 0.85] <> length (param_groups sgd2)
  /\ length [0.95] <> length (param_groups sgd2)
  /\ fst (__init__ (Scalar 0.1) 100 0.3 25 true (Seq [0.85; 0.85; 0.85])
            (Scalar 0.95) (-1) sgd2)
     = Raise (ValueError "expected 2 values for base_momentum, got 3")
  /\ fst (__init__ (Scalar 0.1) 100 0.3 25 false (Scalar 0.85)
            (Seq [0.95]) (-1) sgd2)
     = Raise (ValueError "expected 2 values for max_momentum, got 1").
Proof.
  assert (Hd : 25 <> 0) by lra.
  assert (Hdef : "momentum" ∈ dom (defaults sgd2)).
  { apply elem_of_dom. eexists. reflexivity. }
  assert (Hmom : Forall (fun g : group => is_Some (g !! "momentum"))
                        (param_groups sgd2)).
  { repeat constructor; eexists; reflexivity. }
  assert (Hlen : length [0.85; 0.85; 0.85] <> length (param_groups sgd2))
    by discriminate.
  assert (Hlen' : length [0.95] <> length (param_groups sgd2))
    by discriminate.
  repeat split; try assumption.
  - destruct count_mismatch_when_validated
      as (_ & _ & _ & _ & _ & _ & Hbm & _).
    rewrite (Hbm 0.1 100%Z 0.3 25 [0.85; 0.85; 0.85] (Scalar 0.95) (-1)%Z sgd2
               Hd Hdef Hlen).
    reflexivity.
  - destruct count_mismatch_when_validated
      as (_ & _ & _ & _ & _ & Hmm & _).
    rewrite (Hmm 0.1 100%Z 0.3 25 false (Scalar 0.85) [0.95] (-1)%Z sgd2
               Hd Hmom); [reflexivity | discriminate | exact Hlen'].
Defined.

(** C2 as stated fails: without momentum cycling a [base_momentum]
    sequence of the wrong length is accepted. *)
Lemma base_momentum_unchecked_without_cycling :
  length [0.85] <> length (param_groups sgd2)
  /\ (exists self o',
        __init__ (Scalar 0.1) 100 0.3 25 false (Seq [0.85]) (Scalar 0.95)
          (-1) sgd2 = (Ok self, o'))
  /\ forall e,
       fst (__init__ (Scalar 0.1) 100 0.3 25 false (Seq [0.85]) (Scalar 0.95)
              (-1) sgd2) <> Raise e.
Proof.
  assert (Hrun := init_no_cycling 0.1 100 0.3 25 (Seq [0.85]) (Scalar 0.95)
                    (-1) sgd2 [0.9; 0.9] [0.95; 0.95]).
  cbv zeta in Hrun.
  split; [discriminate |].
  split.
  - eexists _, _. apply Hrun; [lra | reflexivity | reflexivity].
  - intros e. rewrite Hrun; [discriminate | lra | reflexivity | reflexivity].
Qed.

(** ** The image-info cache *)

Section ImageInfoFacts.
Import ImageInfo.
Variable int_of_str : string -> result Z.

Lemma keeps_ret {A} (a : A) : keeps_instance (ret a).
Proof. intros w. reflexivity. Qed.

Lemma keeps_raise {A} (e : exn) : keeps_instance (@raise world A e).
Proof. intros w. reflexivity. Qed.

Lemma keeps_get : keeps_instance get.
Proof. intros w. reflexivity. Qed.

Lemma keeps_bind {A B} (m : M world A) (k : A -> M world B) :
  keeps_instance m -> (forall a, keeps_instance (k a)) ->
  keeps_instance (bind m k).
Proof.
  intros Hm Hk w. unfold bind. specialize (Hm w).
  destruct (m w) as [[a | e] w']; cbn [snd] in *; [| exact Hm].
  now rewrite Hk.
Qed.

Lemma keeps_self_attr {A} (name : string) (proj : cache -> option A) :
  keeps_instance (self_attr name proj).
Proof.
  intros w. unfold self_attr.
  destruct (instance w) as [c |] eqn:Hi; [destruct (proj c) |];
    cbn [snd]; congruence.
Qed.

Lemma keeps_set_pickle (path : string) (l : list shape) :
  keeps_instance (modify (set_pickle path l)).
Proof. intros w. reflexivity. Qed.

Lemma keeps_load_image_2 (r s : string) (i : nat) :
  keeps_instance (load_image_2 r s i).
Proof.
  intros w. unfold load_image_2. now destruct (images w !! (r, s, i)).
Qed.

Lemma keeps_mapM {A B} (f : A -> M world B) (l : list A) :
  (forall a, keeps_instance (f a)) -> keeps_instance (mapM f l).
Proof.
  intros Hf. induction l as [| a l IH]; cbn [mapM].
  - apply keeps_ret.
  - apply keeps_bind; [apply Hf |]. intros b.
    apply keeps_bind; [apply IH |]. intros bs. apply keeps_ret.
Qed.

(** [load_info] may write a pickle, never the class attribute. *)
Lemma keeps_load_info : keeps_instance load_info.
Proof.
  unfold load_info.
  apply keeps_bind; [apply keeps_self_attr |]. intros path.
  apply keeps_bind; [apply keeps_get |]. intros w.
  destruct (pickles w !! path); [apply keeps_ret |].
  apply keeps_bind; [apply keeps_self_attr |]. intros r.
  apply keeps_bind; [apply keeps_self_attr |]. intros s.
  apply keeps_bind.
  { destruct (dirs w !! _); [apply keeps_ret | apply keeps_raise]. }
  intros n.
  apply keeps_bind.
  { apply keeps_mapM. intros i. apply keeps_load_image_2. }
  intros shapes.
  apply keeps_bind; [apply keeps_set_pickle |]. intros _. apply keeps_ret.
Qed.

Lemma get_instance_fixed (r s : string) (w : world) (c : cache) :
  instance w = Some c -> get_instance r s w = (Ok tt, w).
Proof. intros Hi. unfold get_instance, bind, get. now rewrite Hi. Qed.

(** A call on a process whose instance is set and loaded. *)
Lemma load_image_info_fixed (r s : string) (id : imgid) (w : world)
    (c : cache) (l : list shape) :
  instance w = Some c -> infos c = Some l ->
  load_image_info int_of_str r s id w
  = (rbind (to_int int_of_str id) (py_getitem l), w).
Proof.
  intros Hi Hl. unfold load_image_info, bind, lift.
  destruct (to_int int_of_str id) as [i | e]; [| reflexivity].
  rewrite (get_instance_fixed r s w c Hi).
  unfold self_attr. now rewrite Hi, Hl.
Qed.

(** A call on a process whose instance could not load its list. *)
Lemma load_image_info_unloaded (r s : string) (id : imgid) (w : world)
    (c : cache) :
  instance w = Some c -> infos c = None ->
  load_image_info int_of_str r s id w
  = (rbind (to_int int_of_str id)
           (fun _ => Raise (AttributeError "infos")), w).
Proof.
  intros Hi Hl. unfold load_image_info, bind, lift.
  destruct (to_int int_of_str id) as [i | e]; [| reflexivity].
  rewrite (get_instance_fixed r s w c Hi).
  unfold self_attr. now rewrite Hi, Hl.
Qed.


Lemma set_instance_twice (a b : option cache) (w : world) :
  set_instance a (set_instance b w) = set_instance a w.
Proof. reflexivity. Qed.

(** The first call that reaches [get_instance]. *)
Lemma first_call_run (r s : string) (id : imgid) (i : Z) (w : world) :
  instance w = None -> to_int int_of_str id = Ok i ->
  let path := join (home w +:+ "/.dl_ext/vision_ext/datasets/kitti/image_info")
                   (s +:+ ".pkl") in
  let c := {| cache_path := Some path; root := Some r; split := Some s;
              infos := None |} in
  load_image_info int_of_str r s id w
  = match load_info (set_instance (Some c) w) with
    | (Ok l, w') =>
        (py_getitem l i,
         set_instance (Some {| cache_path := Some path; root := Some r;
                               split := Some s; infos := Some l |}) w')
    | (Raise e, w') => (Raise e, w')
    end.
Proof.
  intros Hi Hid path c.
  unfold load_image_info, get_instance, post_init, self_update, bind, lift,
    get, modify.
  rewrite Hid, Hi.
  cbn [set_instance instance fmap option_fmap option_map new_cache
       cache_path root split infos pickles dirs images home].
  rewrite !set_instance_twice. fold path. fold c.
  pose proof (keeps_load_info (set_instance (Some c) w)) as Hkeep.
  destruct (load_info (set_instance (Some c) w)) as [[l | e] w'];
    cbn [snd set_instance instance] in Hkeep; [| reflexivity].
  unfold self_attr. cbn [set_instance instance]. rewrite Hkeep.
  cbn [fmap option_fmap option_map infos cache_path root split fst snd
       instance set_instance c].
  reflexivity.
Qed.


End ImageInfoFacts.

Example three_calls_one_instance :
  fst (ImageInfo.run_calls ImageInfo.int_rejecting
         [("/data/kitti", "training", ImageInfo.IdInt 0);
          ("/elsewhere", "testing", ImageInfo.IdInt 1);
          ("/data/kitti", "training", ImageInfo.IdInt 2)]
         ImageInfo.fresh_process)
  = [Ok [375; 1242; 3]%Z; Ok [370; 1224; 3]%Z; Raise IndexError].
Proof. vm_compute. reflexivity. Qed.


(** ** Further properties of the scheduler *)

Lemma write_field_frame (k k' : string) (gs : list group) (vs : list R) :
  k <> k' ->
  map (fun g : group => g !! k') (write_field k gs vs)
  = map (fun g : group => g !! k') gs.
Proof.
  intros Hk. revert vs. induction gs as [| g gs IH]; intros [| v vs]; cbn;
    try reflexivity.
  rewrite lookup_insert_ne by assumption. now rewrite IH.
Qed.

Lemma write_field_twice (k : string) (gs : list group) (vs : list R) :
  write_field k (write_field k gs vs) vs = write_field k gs vs.
Proof.
  revert vs. induction gs as [| g gs IH]; intros [| v vs]; cbn;
    try reflexivity.
  now rewrite insert_insert_eq, IH.
Qed.

(** The shape of every run of [get_lr]: a computation on the scheduler
    alone, followed by at most one write of the momentum field. *)
Lemma get_lr_shape (self : scheduler) :
  exists r : result (list R * option (list R)),
    (cycle_momentum (own self) = false ->
     forall lrs ms, r <> Ok (lrs, Some ms))
    /\ forall o,
         get_lr self o
         = match r with
           | Raise e => (Raise e, o)
           | Ok (lrs, None) => (Ok lrs, o)
           | Ok (lrs, Some ms) =>
               (Ok lrs,
                set_groups (write_field "momentum" (param_groups o) ms) o)
           end.
Proof.
  unfold get_lr, bind, lift, set_field, modify, ret.
  destruct (py_div _ _) as [x | e].
  2:{ exists (Raise e). split; [discriminate | reflexivity]. }
  destruct (mapR _ (zip (base_lrs self) _)) as [lrs | e].
  2:{ exists (Raise e). split; [discriminate | reflexivity]. }
  destruct (cycle_momentum (own self)).
  - destruct (mapR _ (zip (base_momentums (own self)) _)) as [ms | e].
    + exists (Ok (lrs, Some ms)). split; [discriminate | reflexivity].
    + exists (Raise e). split; [discriminate | reflexivity].
  - exists (Ok (lrs, None)). split; [discriminate | reflexivity].
Qed.

(** X1.  Whatever the scheduler and whatever the outcome, [get_lr]
    leaves in the optimizer the same [defaults], the same number of
    groups, and the same value of every field other than [momentum] --
    in particular it never writes [lr] -- and without momentum cycling it
    leaves the optimizer exactly as it was. *)
Theorem get_lr_touches_only_momentum (self : scheduler) (o : optimizer) :
  let o' := snd (get_lr self o) in
  defaults o' = defaults o
  /\ length (param_groups o') = length (param_groups o)
  /\ (forall k, k <> "momentum" ->
        map (fun g : group => g !! k) (param_groups o')
        = map (fun g : group => g !! k) (param_groups o))
  /\ (cycle_momentum (own self) = false -> o' = o).
Proof.
  destruct (get_lr_shape self) as (r & Hcm & Hrun).
  cbv zeta. rewrite (Hrun o).
  destruct r as [[lrs [ms |]] | e]; cbn [snd param_groups set_groups defaults].
  - repeat split.
    + apply length_write_field.
    + intros k Hk. apply write_field_frame. congruence.
    + intros Hfalse. now destruct (Hcm Hfalse lrs ms).
  - repeat split.
  - repeat split.
Qed.

(** X2.  The rates returned by [get_lr] do not depend on the optimizer,
    and running [get_lr] a second time at the same step index returns the
    same rates and leaves the optimizer as the first run left it. *)
Theorem get_lr_idempotent (self : scheduler) (o o2 : optimizer) :
  fst (get_lr self o) = fst (get_lr self o2)
  /\ get_lr self (snd (get_lr self o))
     = (fst (get_lr self o), snd (get_lr self o)).
Proof.
  destruct (get_lr_shape self) as (r & _ & Hrun).
  rewrite !(Hrun o), (Hrun o2).
  destruct r as [[lrs [ms |]] | e]; cbn [fst snd]; rewrite ?Hrun;
    (split; [reflexivity |]); try reflexivity.
  cbn [param_groups set_groups]. now rewrite write_field_twice.
Qed.

(** X3.  [get_lr] divides without a guard: it raises
    [ZeroDivisionError], before anything is written, when [total_size] is
    0, and -- as soon as there is a group -- when the length of the
    current phase is 0 ([step_size_up] while ramping up, [step_size_down]
    while ramping down). *)
Theorem get_lr_zero_division (self : scheduler) (o : optimizer) :
  (total_size (own self) = 0%Z ->
   get_lr self o = (Raise ZeroDivisionError, o))
  /\ (total_size (own self) <> 0%Z ->
      base_lrs self <> [] -> max_lrs (own self) <> [] ->
      (if Rle_dec (IZR (last_epoch self) / IZR (total_size (own self)))
                  (step_ratio (own self))
       then step_size_up (own self) = 0
       else step_size_down (own self) = 0) ->
      get_lr self o = (Raise ZeroDivisionError, o)).
Proof.
  split.
  - intros HT. unfold get_lr, bind, lift. rewrite HT.
    now rewrite py_div_zero.
  - intros HT Hb Hm Hzero. unfold get_lr, bind, lift.
    rewrite py_div_ok by (intros H; apply eq_IZR in H; contradiction).
    destruct (base_lrs self) as [| b bs]; [contradiction |].
    destruct (max_lrs (own self)) as [| m ms]; [contradiction |].
    cbn [zip_with mapR].
    destruct (Rle_dec _ _); rewrite Hzero, py_div_zero; reflexivity.
Qed.

Lemma get_lr_zero_division_witness :
  total_size (own no_ramp_up) <> 0%Z
  /\ base_lrs no_ramp_up <> [] /\ max_lrs (own no_ramp_up) <> []
  /\ get_lr no_ramp_up sgd2 = (Raise ZeroDivisionError, sgd2).
Proof.
  assert (HT : total_size (own no_ramp_up) <> 0%Z) by discriminate.
  assert (Hb : base_lrs no_ramp_up <> []) by discriminate.
  assert (Hm : max_lrs (own no_ramp_up) <> []) by discriminate.
  repeat split; try assumption.
  apply (proj2 (get_lr_zero_division no_ramp_up sgd2) HT Hb Hm).
  cbn [no_ramp_up own last_epoch total_size step_ratio step_size_up].
  destruct (Rle_dec _ _) as [_ | Hn]; [lra |].
  exfalso. apply Hn. lra.
Defined.





Section MirrorFacts.
Variables (T : Z) (p : R).
Hypothesis HT : (0 < T)%Z.
Hypothesis Hp : 0 < p < 1.



End MirrorFacts.



(** ** Further properties of construction *)

Lemma read_field_length (k : string) (gs : list group) (vs : list R) :
  read_field k gs = Ok vs -> length vs = length gs.
Proof.
  intros H. apply read_field_present in H.
  apply (f_equal length) in H. rewrite !length_map in H. congruence.
Qed.

(** The optimizer that a run of the constructor leaves behind differs
    from the one it found by at most a write of [lr] followed by a write
    of [momentum]. *)
Lemma init_optimizer_shape (max_lr : param) (T : Z) (p d : R) (cm : bool)
    (bm mm : param) (le : Z) (o : optimizer) :
  let o' := snd (__init__ max_lr T p d cm bm mm le o) in
  o' = o
  \/ (exists lrs, o' = set_groups (write_field "lr" (param_groups o) lrs) o)
  \/ (cm = true
      /\ exists lrs ms,
           o' = set_groups
                  (write_field "momentum"
                     (write_field "lr" (param_groups o) lrs) ms) o).
Proof.
  cbv zeta. run_py.
  case_steps; cbn [snd param_groups set_groups defaults];
    try (left; reflexivity);
    try (right; left; eexists; reflexivity);
    right; right; (split; [reflexivity | eexists _, _; reflexivity]).
Qed.

(** X9.  In every outcome, success or exception, fresh or resumed, the
    constructor leaves in the optimizer the same [defaults], the same
    number of groups and the same value of every field other than [lr]
    and [momentum]; without momentum cycling it leaves [momentum] as it
    was too. *)
Theorem init_touches_only_lr_and_momentum (max_lr : param) (T : Z) (p d : R)
    (cm : bool) (bm mm : param) (le : Z) (o : optimizer) :
  let o' := snd (__init__ max_lr T p d cm bm mm le o) in
  defaults o' = defaults o
  /\ length (param_groups o') = length (param_groups o)
  /\ (forall k, k <> "lr" -> k <> "momentum" ->
        map (fun g : group => g !! k) (param_groups o')
        = map (fun g : group => g !! k) (param_groups o))
  /\ (cm = false ->
      map (fun g : group => g !! "momentum") (param_groups o')
      = map (fun g : group => g !! "momentum") (param_groups o)).
Proof.
  cbv zeta.
  destruct (init_optimizer_shape max_lr T p d cm bm mm le o)
    as [-> | [[lrs ->] | [Hcm (lrs & ms & ->)]]];
    cbn [defaults param_groups set_groups].
  - repeat split.
  - repeat split.
    + apply length_write_field.
    + intros k Hlr _. apply write_field_frame. congruence.
    + intros _. apply write_field_frame. discriminate.
  - repeat split.
    + now rewrite !length_write_field.
    + intros k Hlr Hmom.
      rewrite write_field_frame by congruence.
      apply write_field_frame. congruence.
    + intros Hfalse. congruence.
Qed.

(** X10.  A sequence for [max_lr], or a zero [div_factor], makes the
    constructor fail at its first computation, [max_lr / div_factor]:
    with [TypeError], respectively [ZeroDivisionError], and with the
    optimizer untouched even on a fresh start. *)
Theorem init_fails_before_any_write :
  (forall l T p d cm bm mm le o,
     __init__ (Seq l) T p d cm bm mm le o = (Raise TypeError, o))
  /\ (forall m T p cm bm mm le o,
        __init__ (Scalar m) T p 0 cm bm mm le o
        = (Raise ZeroDivisionError, o)).
Proof. split; [exact init_seq_max_lr | exact init_zero_div_factor]. Qed.

(** X11.  Construction is not atomic: on a fresh start the [lr] of every
    group has already been overwritten with [max_lr / div_factor] when
    the constructor raises because the optimizer does not support
    momentum, or because a group has no momentum to read. *)
Theorem failed_fresh_init_keeps_lr_write (m : R) (T : Z) (p d : R)
    (bm mm : param) (o : optimizer) :
  d <> 0 ->
  let o1 := set_groups
              (write_field "lr" (param_groups o)
                 (replicate (length (param_groups o)) (m / d))) o in
  read_field "lr" (param_groups o1)
  = Ok (replicate (length (param_groups o)) (m / d))
  /\ ("momentum" ∉ dom (defaults o) ->
      __init__ (Scalar m) T p d true bm mm (-1) o
      = (Raise (ValueError momentum_unsupported), o1))
  /\ (Exists (fun g : group => g !! "momentum" = None) (param_groups o) ->
      __init__ (Scalar m) T p d false bm mm (-1) o
      = (Raise (KeyError "momentum"), o1)).
Proof.
  intros Hd o1. split; [| split].
  - subst o1. cbn [param_groups set_groups].
    apply read_write_field. apply length_replicate.
  - intros Hno. run_py. rewrite (py_div_ok _ _ Hd), !format_scalar.
    destruct (decide ((-1)%Z = (-1)%Z)); [| congruence].
    cbn [param_groups set_groups defaults].
    destruct (decide ("momentum" ∈ dom (defaults o)));
      [contradiction | reflexivity].
  - intros Hmiss. run_py. rewrite (py_div_ok _ _ Hd), !format_scalar.
    destruct (decide ((-1)%Z = (-1)%Z)); [| congruence].
    cbn [param_groups set_groups defaults].
    rewrite read_field_write_other by discriminate.
    now rewrite (read_field_missing _ _ Hmiss).
Qed.

Lemma failed_fresh_init_keeps_lr_write_witness :
  25 <> 0 /\ ("momentum" ∉ dom (defaults plain2))
  /\ __init__ (Scalar 0.5) 100 0.3 25 true (Scalar 0.85) (Scalar 0.95) (-1)
       plain2
     = (Raise (ValueError momentum_unsupported),
        set_groups (write_field "lr" (param_groups plain2)
                      (replicate (length (param_groups plain2)) (0.5 / 25)))
          plain2).
Proof.
  assert (Hd : 25 <> 0) by lra.
  assert (H : "momentum" ∉ dom (defaults plain2)).
  { intros [v Hv]%elem_of_dom. discriminate Hv. }
  split; [exact Hd |]. split; [exact H |].
  exact (proj1 (proj2 (failed_fresh_init_keeps_lr_write 0.5 100 0.3 25
                         (Scalar 0.85) (Scalar 0.95) plain2 Hd)) H).
Defined.

Lemma init_keeps_group_count (max_lr : param) (T : Z) (p d : R) (cm : bool)
    (bm mm : param) (le : Z) (o : optimizer) :
  length (param_groups (snd (__init__ max_lr T p d cm bm mm le o)))
  = length (param_groups o).
Proof.
  destruct (init_optimizer_shape max_lr T p d cm bm mm le o)
    as [-> | [[lrs ->] | [_ (lrs & ms & ->)]]];
    cbn [param_groups set_groups]; now rewrite ?length_write_field.
Qed.

(** X12.  Whenever construction succeeds, the scheduler holds exactly
    one base rate, one maximal rate, one base momentum and one maximal
    momentum per parameter group, and its two phase lengths add up to
    [total_steps] -- whatever [total_steps] and [pct_start] are. *)
Theorem init_per_group_state (max_lr : param) (T : Z) (p d : R) (cm : bool)
    (bm mm : param) (le : Z) (o o' : optimizer) (self : scheduler) :
  __init__ max_lr T p d cm bm mm le o = (Ok self, o') ->
  let n := length (param_groups o) in
  length (param_groups o') = n
  /\ length (base_lrs self) = n
  /\ length (max_lrs (own self)) = n
  /\ length (base_momentums (own self)) = n
  /\ length (max_momentums (own self)) = n
  /\ total_size (own self) = T
  /\ step_size_up (own self) + step_size_down (own self) = IZR T.
Proof.
  intros Hrun n.
  assert (Hn : length (param_groups o') = n).
  { pose proof (init_keeps_group_count max_lr T p d cm bm mm le o) as H.
    now rewrite Hrun in H. }
  destruct (init_ok_inv _ _ _ _ _ _ _ _ _ _ _ Hrun)
    as (m & bms & mms & _ & _ & Hread & Hmm & ->).
  cbn [base_lrs own max_lrs base_momentums max_momentums total_size
       step_size_up step_size_down].
  rewrite !length_replicate.
  apply read_field_length in Hread. apply format_length in Hmm.
  repeat split; try congruence. ring.
Qed.

Lemma init_per_group_state_witness :
  __init__ (Scalar 0.1) 100 0.3 25 true (Scalar 0.85) (Scalar 0.95) (-1) sgd2
  = (Ok scenario,
     set_groups (write_field "momentum"
                   (write_field "lr" (param_groups sgd2) [0.1 / 25; 0.1 / 25])
                   [0.85; 0.85]) sgd2)
  /\ length (base_lrs scenario) = length (param_groups sgd2)
  /\ length (base_momentums (own scenario)) = length (param_groups sgd2)
  /\ step_size_up (own scenario) + step_size_down (own scenario) = IZR 100.
Proof.
  split; [exact scenario_constructed |].
  destruct (init_per_group_state _ _ _ _ _ _ _ _ _ _ _ scenario_constructed)
    as (_ & Hb & _ & Hbm & _ & _ & Hsum).
  repeat split; assumption.
Defined.

(** After a fresh run that computed [max_lr / div_factor], the [lr] of
    every group is that quotient, in every outcome. *)
Lemma init_fresh_reads_lr (m : R) (T : Z) (p d : R) (cm : bool)
    (bm mm : param) (o : optimizer) :
  d <> 0 ->
  read_field "lr"
    (param_groups (snd (__init__ (Scalar m) T p d cm bm mm (-1) o)))
  = Ok (replicate (length (param_groups o)) (m / d)).
Proof.
  intros Hd. run_py. rewrite (py_div_ok _ _ Hd), !format_scalar.
  destruct (decide ((-1)%Z = (-1)%Z)); [| congruence].
  cbn [param_groups set_groups defaults].
  assert (Hlr : forall ms,
            read_field "lr"
              (write_field "momentum"
                 (write_field "lr" (param_groups o)
                    (replicate (length (param_groups o)) (m / d))) ms)
            = Ok (replicate (length (param_groups o)) (m / d))).
  { intros ms. rewrite read_field_write_other by discriminate.
    apply read_write_field, length_replicate. }
  assert (Hlr0 : read_field "lr"
                   (write_field "lr" (param_groups o)
                      (replicate (length (param_groups o)) (m / d)))
                 = Ok (replicate (length (param_groups o)) (m / d)))
    by apply read_write_field, length_replicate.
  case_steps; cbn [snd param_groups set_groups]; auto.
Qed.

(** X13.  After a successful fresh construction every group's [lr] is
    [max_lr / div_factor]; with momentum cycling every group's [momentum]
    is the [base_momentum] that was passed (broadcast or per group), and
    that is also the snapshot the scheduler keeps. *)
Theorem fresh_init_writes (max_lr : param) (T : Z) (p d : R) (cm : bool)
    (bm mm : param) (o o' : optimizer) (self : scheduler) :
  __init__ max_lr T p d cm bm mm (-1) o = (Ok self, o') ->
  exists m,
    max_lr = Scalar m
    /\ read_field "lr" (param_groups o')
       = Ok (replicate (length (param_groups o)) (m / d))
    /\ (cm = true ->
        _format_param "base_momentum" o bm = Ok (base_momentums (own self))
        /\ read_field "momentum" (param_groups o')
           = Ok (base_momentums (own self))).
Proof.
  intros Hrun.
  destruct (init_ok_inv _ _ _ _ _ _ _ _ _ _ _ Hrun)
    as (m & bms & mms & -> & Hd & Hread & _ & Hself).
  exists m. split; [reflexivity |]. split.
  - apply (f_equal snd) in Hrun. cbn [snd] in Hrun. subst o'.
    now apply init_fresh_reads_lr.
  - intros ->.
    destruct (init_fresh_cycling_snapshot _ _ _ _ _ _ _ _ _ Hrun) as [Hbm _].
    split; [exact Hbm |]. subst self. exact Hread.
Qed.

Lemma fresh_init_writes_witness :
  __init__ (Scalar 0.1) 100 0.3 25 true (Scalar 0.85) (Scalar 0.95) (-1) sgd2
  = (Ok scenario,
     set_groups (write_field "momentum"
                   (write_field "lr" (param_groups sgd2) [0.1 / 25; 0.1 / 25])
                   [0.85; 0.85]) sgd2)
  /\ exists o',
       read_field "lr" (param_groups o') = Ok [0.1 / 25; 0.1 / 25]
       /\ read_field "momentum" (param_groups o') = Ok [0.85; 0.85].
Proof.
  split; [exact scenario_constructed |].
  destruct (fresh_init_writes _ _ _ _ _ _ _ _ _ _ scenario_constructed)
    as (m & [= <-] & Hlr & Hmom).
  eexists. split; [exact Hlr |]. exact (proj2 (Hmom eq_refl)).
Defined.

(** X14.  When resuming with momentum cycling, [base_momentum] is
    validated and then dropped: two well-formed values of it give the
    same scheduler and the same optimizer. *)
Theorem resume_ignores_base_momentum_value (max_lr : param) (T : Z) (p d : R)
    (cm : bool) (bm bm' mm : param) (le : Z) (o : optimizer)
    (bms bms' : list R) :
  le <> (-1)%Z ->
  _format_param "base_momentum" o bm = Ok bms ->
  _format_param "base_momentum" o bm' = Ok bms' ->
  __init__ max_lr T p d cm bm mm le o = __init__ max_lr T p d cm bm' mm le o.
Proof.
  intros Hle Hbm Hbm'. run_py.
  destruct (decide (le = (-1)%Z)); [contradiction |].
  destruct max_lr as [m | l]; [| reflexivity].
  destruct (py_div m d); [| reflexivity].
  rewrite !format_scalar. destruct cm; [| reflexivity].
  destruct (decide ("momentum" ∈ dom (defaults o))); [| reflexivity].
  now rewrite Hbm, Hbm'.
Qed.

Lemma resume_ignores_base_momentum_value_witness :
  (40 <> -1)%Z
  /\ _format_param "base_momentum" sgd2 (Scalar 0.85) = Ok [0.85; 0.85]
  /\ _format_param "base_momentum" sgd2 (Seq [0.5; 0.6]) = Ok [0.5; 0.6]
  /\ __init__ (Scalar 0.1) 100 0.3 25 true (Scalar 0.85) (Scalar 0.95) 40 sgd2
     = __init__ (Scalar 0.1) 100 0.3 25 true (Seq [0.5; 0.6]) (Scalar 0.95)
         40 sgd2.
Proof.
  assert (H : (40 <> -1)%Z) by discriminate.
  split; [exact H |]. split; [reflexivity |]. split; [reflexivity |].
  exact (resume_ignores_base_momentum_value (Scalar 0.1) 100 0.3 25 true
           (Scalar 0.85) (Seq [0.5; 0.6]) (Scalar 0.95) 40 sgd2
           [0.85; 0.85] [0.5; 0.6] H eq_refl eq_refl).
Defined.

(** ** The module-level [get_lr(optimizer)] *)

Lemma optim_get_lr_frame (o1 o2 : optimizer) :
  map (fun g : group => g !! "lr") (param_groups o1)
  = map (fun g : group => g !! "lr") (param_groups o2) ->
  Optim.get_lr o1 = Optim.get_lr o2.
Proof.
  unfold Optim.get_lr.
  destruct (param_groups o1) as [| g1 gs1], (param_groups o2) as [| g2 gs2];
    cbn; try discriminate; [reflexivity |].
  intros [= -> _]. reflexivity.
Qed.

(** X16.  [get_lr(optimizer)] looks at the first group only: it returns
    [None] exactly when there is no group, raises only [KeyError('lr')]
    and exactly when the first group has no [lr], and gives the same
    answer for two optimizers whose first groups agree on [lr]. *)
Theorem optimizer_lr_is_first_group (o : optimizer) :
  (Optim.get_lr o = Ok None <-> param_groups o = [])
  /\ (forall e, Optim.get_lr o = Raise e <->
        e = KeyError "lr"
        /\ exists g, head (param_groups o) = Some g /\ g !! "lr" = None)
  /\ (forall v, Optim.get_lr o = Ok (Some v) <->
        exists g, head (param_groups o) = Some g /\ g !! "lr" = Some v)
  /\ (forall o2,
        (head (param_groups o) ≫= fun g : group => Some (g !! "lr"))
        = (head (param_groups o2) ≫= fun g : group => Some (g !! "lr")) ->
        Optim.get_lr o = Optim.get_lr o2).
Proof.
  unfold Optim.get_lr.
  destruct (param_groups o) as [| g gs]; cbn.
  - split; [split; auto |]. split; [| split].
    + intros e. split; [discriminate |]. intros (_ & g & Hg & _). discriminate.
    + intros v. split; [discriminate |]. intros (g & Hg & _). discriminate.
    + intros o2. destruct (param_groups o2); cbn; [auto | discriminate].
  - destruct (g !! "lr") as [v |] eqn:Hlr.
    + split; [split; discriminate |]. split; [| split].
      * intros e. split; [discriminate |].
        intros (_ & g' & [= <-] & Hn). congruence.
      * intros v'. split.
        -- intros [= <-]. eauto.
        -- intros (g' & [= <-] & Hv). congruence.
      * intros o2. destruct (param_groups o2) as [| g2 gs2]; cbn;
          [discriminate |]. intros [= <-]. reflexivity.
    + split; [split; discriminate |]. split; [| split].
      * intros e. split.
        -- intros [= <-]. eauto.
        -- intros (-> & _). reflexivity.
      * intros v'. split; [discriminate |].
        intros (g' & [= <-] & Hv). congruence.
      * intros o2. destruct (param_groups o2) as [| g2 gs2]; cbn;
          [discriminate |]. intros [= <-]. reflexivity.
Qed.

(** X17.  After a successful fresh construction on an optimizer with at
    least one group, [get_lr(optimizer)] reports [max_lr / div_factor];
    and a run of the scheduler's [get_lr], whatever its outcome, never
    changes what [get_lr(optimizer)] reports. *)
Theorem optimizer_lr_after_scheduler :
  (forall max_lr T p d cm bm mm o o' self,
     param_groups o <> [] ->
     __init__ max_lr T p d cm bm mm (-1) o = (Ok self, o') ->
     exists m, max_lr = Scalar m /\ Optim.get_lr o' = Ok (Some (m / d)))
  /\ (forall self o, Optim.get_lr (snd (get_lr self o)) = Optim.get_lr o).
Proof.
  split.
  - intros max_lr T p d cm bm mm o o' self Hne Hrun.
    destruct (init_ok_inv _ _ _ _ _ _ _ _ _ _ _ Hrun)
      as (m & bms & mms & -> & Hd & _ & _ & _).
    exists m. split; [reflexivity |].
    assert (Hlr : map (fun g : group => g !! "lr") (param_groups o')
                  = map Some (replicate (length (param_groups o)) (m / d))).
    { apply read_field_present.
      apply (f_equal snd) in Hrun. cbn [snd] in Hrun. subst o'.
      now apply init_fresh_reads_lr. }
    unfold Optim.get_lr.
    destruct (param_groups o') as [| g gs];
      destruct (param_groups o) as [| g0 gs0]; cbn in Hlr;
      try discriminate; try contradiction.
    injection Hlr as Hg _. now rewrite Hg.
  - intros self o. apply optim_get_lr_frame.
    destruct (get_lr_shape self) as (r & _ & Hrun). rewrite (Hrun o).
    destruct r as [[lrs [ms |]] | e]; cbn [snd param_groups set_groups];
      try reflexivity.
    apply write_field_frame. discriminate.
Qed.

Lemma optimizer_lr_after_scheduler_witness :
  param_groups sgd2 <> []
  /\ __init__ (Scalar 0.1) 100 0.3 25 true (Scalar 0.85) (Scalar 0.95) (-1)
       sgd2
     = (Ok scenario,
        set_groups (write_field "momentum"
                      (write_field "lr" (param_groups sgd2)
                         [0.1 / 25; 0.1 / 25])
                      [0.85; 0.85]) sgd2)
  /\ Optim.get_lr
       (set_groups (write_field "momentum"
                      (write_field "lr" (param_groups sgd2)
                         [0.1 / 25; 0.1 / 25])
                      [0.85; 0.85]) sgd2)
     = Ok (Some (0.1 / 25)).
Proof.
  assert (Hne : param_groups sgd2 <> []) by discriminate.
  split; [exact Hne |]. split; [exact scenario_constructed |].
  destruct (proj1 optimizer_lr_after_scheduler _ _ _ _ _ _ _ _ _ _ Hne
              scenario_constructed) as (m & [= <-] & H).
  exact H.
Defined.

(** ** Further properties of the image-info cache *)

Section ImageInfoRuns.
Import ImageInfo.
Variable int_of_str : string -> result Z.

Lemma mapM_load_image_2 (r s : string) (l : list nat) (w : world) :
  mapM (load_image_2 r s) l w
  = (mapR (fun i => match images w !! (r, s, i) with
                    | Some sh => Ok sh
                    | None => Raise (FileNotFoundError (join r s))
                    end) l,
     w).
Proof.
  induction l as [| i l IH]; [reflexivity |].
  cbn [mapM mapR]. unfold bind at 1. unfold load_image_2 at 1.
  destruct (images w !! (r, s, i)); [| reflexivity].
  unfold bind, ret. rewrite IH. cbn [rbind].
  now destruct (mapR _ l).
Qed.

(** [load_info] on an instance whose path, root and split are set. *)
Lemma load_info_run (w : world) (c : cache) (path r s : string) :
  instance w = Some c -> cache_path c = Some path ->
  root c = Some r -> split c = Some s ->
  load_info w
  = match pickles w !! path with
    | Some l => (Ok l, w)
    | None =>
        match dirs w !! image_dir r s with
        | None => (Raise (FileNotFoundError (image_dir r s)), w)
        | Some n =>
            match scan w r s n with
            | Ok shapes => (Ok shapes, set_pickle path shapes w)
            | Raise e => (Raise e, w)
            end
        end
    end.
Proof.
  intros Hi Hpath Hr Hs.
  unfold load_info, self_attr, bind, get, modify, ret, raise.
  rewrite Hi, Hpath. destruct (pickles w !! path); [reflexivity |].
  rewrite Hi, Hr, Hi, Hs. fold (image_dir r s).
  destruct (dirs w !! image_dir r s) as [n |]; [| reflexivity].
  cbn beta iota. rewrite mapM_load_image_2. fold (scan w r s n).
  now destruct (scan w r s n).
Qed.

Lemma scan_set_instance (c : option cache) (w : world) (r s : string)
    (n : nat) :
  scan (set_instance c w) r s n = scan w r s n.
Proof. reflexivity. Qed.

(** The first call of a process that reaches [get_instance], in full. *)
Lemma first_call_full (r s : string) (id : imgid) (i : Z) (w : world) :
  instance w = None -> to_int int_of_str id = Ok i ->
  let path := cache_file w s in
  let made := fun l => {| cache_path := Some path; root := Some r;
                          split := Some s; infos := l |} in
  load_image_info int_of_str r s id w
  = match pickles w !! path with
    | Some l => (py_getitem l i, set_instance (Some (made (Some l))) w)
    | None =>
        match dirs w !! image_dir r s with
        | None => (Raise (FileNotFoundError (image_dir r s)),
                   set_instance (Some (made None)) w)
        | Some n =>
            match scan w r s n with
            | Ok shapes =>
                (py_getitem shapes i,
                 set_instance (Some (made (Some shapes)))
                   (set_pickle path shapes w))
            | Raise e => (Raise e, set_instance (Some (made None)) w)
            end
        end
    end.
Proof.
  intros Hi Hid path made.
  rewrite (first_call_run int_of_str r s id i w Hi Hid). cbv zeta.
  fold (cache_file w s). fold path.
  rewrite (load_info_run _ (made None) path r s);
    try reflexivity.
  cbn [pickles set_instance dirs].
  destruct (pickles w !! path); [reflexivity |].
  destruct (dirs w !! image_dir r s) as [n |]; [| reflexivity].
  rewrite scan_set_instance.
  destruct (scan w r s n); reflexivity.
Qed.

Lemma mapR_length {A B} (f : A -> result B) (l : list A) (bs : list B) :
  mapR f l = Ok bs -> length bs = length l.
Proof.
  revert bs. induction l as [| a l IH]; intros bs; cbn.
  - now intros [= <-].
  - destruct (f a) as [b |]; cbn; [| discriminate].
    destruct (mapR f l) as [bs' |]; cbn; [| discriminate].
    intros [= <-]. cbn. f_equal. now apply IH.
Qed.

Lemma scan_length (w : world) (r s : string) (n : nat) (shapes : list shape) :
  scan w r s n = Ok shapes -> length shapes = n.
Proof.
  unfold scan. intros H. apply mapR_length in H. now rewrite length_seq in H.
Qed.

Lemma mapR_seq_lookup {B} (f : nat -> result B) (a n : nat) (bs : list B)
    (j : nat) (b : B) :
  mapR f (seq a n) = Ok bs -> bs !! j = Some b -> f (a + j)%nat = Ok b.
Proof.
  revert a bs j. induction n as [| n IH]; intros a bs j; cbn.
  - intros [= <-]. discriminate.
  - destruct (f a) as [b0 |] eqn:Hfa; cbn; [| discriminate].
    destruct (mapR f (seq (S a) n)) as [bs' |] eqn:Hrest; cbn;
      [| discriminate].
    intros [= <-]. destruct j as [| j]; cbn.
    + intros [= <-]. now rewrite Nat.add_0_r.
    + intros Hj. rewrite <- Nat.add_succ_comm. now apply (IH (S a) bs').
Qed.

(** A call on a process that already holds an instance changes nothing. *)
Lemma call_settled (r s : string) (id : imgid) (w : world) (c : cache) :
  instance w = Some c -> snd (load_image_info int_of_str r s id w) = w.
Proof.
  intros Hi. destruct (infos c) as [l |] eqn:Hl.
  - now rewrite (load_image_info_fixed int_of_str r s id w c l Hi Hl).
  - now rewrite (load_image_info_unloaded int_of_str r s id w c Hi Hl).
Qed.

(** X18.  Indexing the info list follows Python: the only error is
    [IndexError], raised exactly for [i < -len] or [i >= len]; a negative
    index in range counts from the end. *)
Theorem py_getitem_bounds {A} (l : list A) (i : Z) :
  (py_getitem l i = Raise IndexError
   <-> (i < - Z.of_nat (length l) \/ Z.of_nat (length l) <= i)%Z)
  /\ (forall e, py_getitem l i = Raise e -> e = IndexError)
  /\ ((0 <= i < Z.of_nat (length l))%Z ->
      exists a, l !! Z.to_nat i = Some a /\ py_getitem l i = Ok a
                /\ py_getitem l (i - Z.of_nat (length l)) = Ok a).
Proof.
  assert (Hin : forall j : Z, (0 <= j < Z.of_nat (length l))%Z ->
            exists a, l !! Z.to_nat j = Some a).
  { intros j Hj. apply lookup_lt_is_Some_2. lia. }
  assert (Hout : forall j : Z, (Z.of_nat (length l) <= j)%Z ->
            l !! Z.to_nat j = None).
  { intros j Hj. apply lookup_ge_None_2. lia. }
  split; [| split].
  - unfold py_getitem. destruct (decide (i < 0)%Z) as [Hneg | Hpos].
    + destruct (decide (i + Z.of_nat (length l) < 0)%Z) as [Hlow | Hok].
      * split; [lia | reflexivity].
      * destruct (Hin (i + Z.of_nat (length l))%Z) as [a Ha]; [lia |].
        rewrite Ha. split; [discriminate | lia].
    + destruct (decide (i < 0)%Z); [contradiction |].
      destruct (decide (i < Z.of_nat (length l))%Z) as [Hlt | Hge].
      * destruct (Hin i) as [a Ha]; [lia |].
        rewrite Ha. split; [discriminate | lia].
      * rewrite Hout by lia. split; [lia | reflexivity].
  - intros e. unfold py_getitem.
    destruct (decide (_ < 0)%Z); [intros [= <-]; reflexivity |].
    destruct (l !! _); [discriminate | intros [= <-]; reflexivity].
  - intros Hi. destruct (Hin i Hi) as [a Ha]. exists a.
    split; [exact Ha |]. unfold py_getitem.
    destruct (decide (i < 0)%Z); [lia |].
    destruct (decide (i < 0)%Z); [lia |].
    rewrite Ha. split; [reflexivity |].
    destruct (decide (i - Z.of_nat (length l) < 0)%Z); [| lia].
    replace (i - Z.of_nat (length l) + Z.of_nat (length l))%Z with i by lia.
    destruct (decide (i < 0)%Z); [lia |]. now rewrite Ha.
Qed.

(** X19.  When the pickle of the split exists, the first call of a
    process answers from it and leaves the file system as it was; the
    root plays no part in the answer. *)
Theorem cached_split_ignores_root (r s : string) (id : imgid) (i : Z)
    (w : world) (l : list shape) :
  instance w = None -> to_int int_of_str id = Ok i ->
  pickles w !! cache_file w s = Some l ->
  let w' := snd (load_image_info int_of_str r s id w) in
  fst (load_image_info int_of_str r s id w) = py_getitem l i
  /\ pickles w' = pickles w /\ dirs w' = dirs w /\ images w' = images w
  /\ forall r', fst (load_image_info int_of_str r' s id w) = py_getitem l i.
Proof.
  intros Hi Hid Hl. cbv zeta.
  rewrite (first_call_full r s id i w Hi Hid). cbv zeta. rewrite Hl.
  repeat split.
  intros r'. rewrite (first_call_full r' s id i w Hi Hid). cbv zeta.
  now rewrite Hl.
Qed.

(** X20.  Without a pickle, the first call lists the image directory of
    its root and split, records the shape of each image [0 .. n-1],
    stores the list under the path of the split and answers from it. *)
Theorem first_call_scans_and_stores (r s : string) (id : imgid) (i : Z)
    (w : world) (n : nat) (shapes : list shape) :
  instance w = None -> to_int int_of_str id = Ok i ->
  pickles w !! cache_file w s = None ->
  dirs w !! image_dir r s = Some n ->
  scan w r s n = Ok shapes ->
  let w' := snd (load_image_info int_of_str r s id w) in
  fst (load_image_info int_of_str r s id w) = py_getitem shapes i
  /\ length shapes = n
  /\ (forall j sh, shapes !! j = Some sh -> images w !! (r, s, j) = Some sh)
  /\ pickles w' = <[cache_file w s := shapes]> (pickles w)
  /\ exists c, instance w' = Some c /\ infos c = Some shapes.
Proof.
  intros Hi Hid Hnone Hdir Hscan. cbv zeta.
  rewrite (first_call_full r s id i w Hi Hid). cbv zeta.
  rewrite Hnone, Hdir, Hscan. cbn [fst snd].
  split; [reflexivity |]. split; [eapply scan_length, Hscan |].
  split; [| split; [reflexivity | eexists; split; reflexivity]].
  intros j sh Hj. unfold scan in Hscan.
  pose proof (mapR_seq_lookup _ 0 n shapes j sh Hscan Hj) as H.
  cbn in H. destruct (images w !! (r, s, j)); congruence.
Qed.

(** X21.  The stored list outlives the process: after a scanning first
    call, a new process over the same file system answers every lookup
    in that split from the stored list, for any root -- the pickle is
    keyed by the split alone. *)
Theorem stored_list_serves_new_process (r s : string) (id : imgid) (i : Z)
    (w : world) (n : nat) (shapes : list shape) :
  instance w = None -> to_int int_of_str id = Ok i ->
  pickles w !! cache_file w s = None ->
  dirs w !! image_dir r s = Some n ->
  scan w r s n = Ok shapes ->
  let w' := new_process (snd (load_image_info int_of_str r s id w)) in
  forall r' id' i',
    to_int int_of_str id' = Ok i' ->
    fst (load_image_info int_of_str r' s id' w') = py_getitem shapes i'.
Proof.
  intros Hi Hid Hnone Hdir Hscan w' r' id' i' Hid'. subst w'.
  rewrite (first_call_full r s id i w Hi Hid). cbv zeta.
  rewrite Hnone, Hdir, Hscan. cbn [snd].
  rewrite (first_call_full r' s id' i'); [| reflexivity | exact Hid'].
  cbv zeta.
  change (cache_file (new_process _) s) with (cache_file w s).
  cbn [new_process pickles set_instance set_pickle].
  now rewrite lookup_insert_eq.
Qed.

(** X22.  A first call whose scan fails -- the image directory is
    missing, or an image cannot be loaded -- raises, stores nothing, and
    leaves the process with an instance that has no info list: every
    later call, whatever its root and split, raises
    [AttributeError('infos')]. *)
Theorem failed_scan_poisons_process (r s : string) (id : imgid) (i : Z)
    (w : world) :
  instance w = None -> to_int int_of_str id = Ok i ->
  pickles w !! cache_file w s = None ->
  (dirs w !! image_dir r s = None
   \/ exists n e, dirs w !! image_dir r s = Some n
                  /\ scan w r s n = Raise e) ->
  let w' := snd (load_image_info int_of_str r s id w) in
  (exists e, fst (load_image_info int_of_str r s id w) = Raise e)
  /\ pickles w' = pickles w
  /\ forall r' s' i',
       load_image_info int_of_str r' s' (IdInt i') w'
       = (Raise (AttributeError "infos"), w').
Proof.
  intros Hi Hid Hnone Hfail. cbv zeta.
  rewrite (first_call_full r s id i w Hi Hid). cbv zeta. rewrite Hnone.
  assert (Hlater : forall c w1, instance w1 = Some c -> infos c = None ->
            forall r' s' i',
              load_image_info int_of_str r' s' (IdInt i') w1
              = (Raise (AttributeError "infos"), w1)).
  { intros c w1 Hc Hinf r' s' i'.
    now rewrite (load_image_info_unloaded int_of_str r' s' (IdInt i') w1 c
                   Hc Hinf). }
  destruct Hfail as [Hdir | (n & e & Hdir & Hscan)].
  - rewrite Hdir. cbn [fst snd]. split; [eauto |]. split; [reflexivity |].
    eapply Hlater; reflexivity.
  - rewrite Hdir, Hscan. cbn [fst snd]. split; [eauto |].
    split; [reflexivity |]. eapply Hlater; reflexivity.
Qed.

(** X23.  A call changes nothing at all -- neither the process nor the
    file system -- when the process already holds an instance, or when
    the [imgid] cannot be converted to an int. *)
Theorem settled_call_changes_nothing (r s : string) (id : imgid) (w : world) :
  (instance w <> None \/ exists e, to_int int_of_str id = Raise e) ->
  snd (load_image_info int_of_str r s id w) = w.
Proof.
  intros [Hi | [e He]].
  - destruct (instance w) as [c |] eqn:Hc; [| contradiction].
    now apply (call_settled r s id w c).
  - unfold load_image_info, bind, lift. now rewrite He.
Qed.

End ImageInfoRuns.

Lemma py_getitem_bounds_witness :
  (0 <= 1 < Z.of_nat (length [10; 20; 30]%Z))%Z
  /\ ImageInfo.py_getitem [10; 20; 30]%Z 1 = Ok 20%Z
  /\ ImageInfo.py_getitem [10; 20; 30]%Z (1 - 3) = Ok 20%Z.
Proof.
  assert (H : (0 <= 1 < Z.of_nat (length [10; 20; 30]%Z))%Z) by (cbn; lia).
  split; [exact H |].
  destruct (proj2 (proj2 (py_getitem_bounds [10; 20; 30]%Z 1%Z)) H)
    as (a & Ha & H1 & H2).
  cbn in Ha. injection Ha as <-. split; [exact H1 | exact H2].
Defined.

Lemma cached_split_ignores_root_witness :
  ImageInfo.instance ImageInfo.fresh_process = None
  /\ ImageInfo.to_int ImageInfo.int_rejecting (ImageInfo.IdInt 1) = Ok 1%Z
  /\ ImageInfo.pickles ImageInfo.fresh_process
       !! cache_file ImageInfo.fresh_process "training"
     = Some [[375; 1242; 3]; [370; 1224; 3]]%Z
  /\ forall r',
       fst (ImageInfo.load_image_info ImageInfo.int_rejecting r' "training"
              (ImageInfo.IdInt 1) ImageInfo.fresh_process)
       = ImageInfo.py_getitem [[375; 1242; 3]; [370; 1224; 3]]%Z 1.
Proof.
  assert (Hp : ImageInfo.pickles ImageInfo.fresh_process
                 !! cache_file ImageInfo.fresh_process "training"
               = Some [[375; 1242; 3]; [370; 1224; 3]]%Z)
    by (vm_compute; reflexivity).
  split; [reflexivity |]. split; [reflexivity |]. split; [exact Hp |].
  exact (proj2 (proj2 (proj2 (proj2
           (cached_split_ignores_root ImageInfo.int_rejecting "/data/kitti"
              "training" (ImageInfo.IdInt 1) 1%Z ImageInfo.fresh_process _
              eq_refl eq_refl Hp))))).
Defined.

Lemma unscanned_process_facts :
  ImageInfo.pickles unscanned_process
    !! cache_file unscanned_process "training" = None
  /\ ImageInfo.dirs unscanned_process !! image_dir "/data/kitti" "training"
     = Some 2%nat
  /\ scan unscanned_process "/data/kitti" "training" 2
     = Ok [[375; 1242; 3]; [370; 1224; 3]]%Z
  /\ ImageInfo.pickles unscanned_process
       !! cache_file unscanned_process "testing" = None
  /\ ImageInfo.dirs unscanned_process !! image_dir "/data/kitti" "testing"
     = None.
Proof. repeat split; vm_compute; reflexivity. Qed.

Lemma first_call_scans_and_stores_witness :
  ImageInfo.instance unscanned_process = None
  /\ ImageInfo.to_int ImageInfo.int_rejecting (ImageInfo.IdInt (-1))
     = Ok (-1)%Z
  /\ fst (ImageInfo.load_image_info ImageInfo.int_rejecting "/data/kitti"
            "training" (ImageInfo.IdInt (-1)) unscanned_process)
     = ImageInfo.py_getitem [[375; 1242; 3]; [370; 1224; 3]]%Z (-1)
  /\ ImageInfo.pickles
       (snd (ImageInfo.load_image_info ImageInfo.int_rejecting "/data/kitti"
               "training" (ImageInfo.IdInt (-1)) unscanned_process))
     = <[cache_file unscanned_process "training"
         := [[375; 1242; 3]; [370; 1224; 3]]%Z]>
         (ImageInfo.pickles unscanned_process).
Proof.
  destruct unscanned_process_facts as (Hp & Hd & Hs & _).
  split; [reflexivity |]. split; [reflexivity |].
  destruct (first_call_scans_and_stores ImageInfo.int_rejecting "/data/kitti"
              "training" (ImageInfo.IdInt (-1)) (-1)%Z unscanned_process 2 _
              eq_refl eq_refl Hp Hd Hs) as (Hres & _ & _ & Hpick & _).
  split; [exact Hres | exact Hpick].
Defined.

Lemma stored_list_serves_new_process_witness :
  ImageInfo.instance unscanned_process = None
  /\ fst (ImageInfo.load_image_info ImageInfo.int_rejecting "/elsewhere"
            "training" (ImageInfo.IdInt 0)
            (new_process
               (snd (ImageInfo.load_image_info ImageInfo.int_rejecting
                       "/data/kitti" "training" (ImageInfo.IdInt 1)
                       unscanned_process))))
     = ImageInfo.py_getitem [[375; 1242; 3]; [370; 1224; 3]]%Z 0.
Proof.
  destruct unscanned_process_facts as (Hp & Hd & Hs & _).
  split; [reflexivity |].
  exact (stored_list_serves_new_process ImageInfo.int_rejecting "/data/kitti"
           "training" (ImageInfo.IdInt 1) 1%Z unscanned_process 2 _
           eq_refl eq_refl Hp Hd Hs "/elsewhere" (ImageInfo.IdInt 0) 0%Z
           eq_refl).
Defined.

Lemma failed_scan_poisons_process_witness :
  ImageInfo.instance unscanned_process = None
  /\ ImageInfo.dirs unscanned_process !! image_dir "/data/kitti" "testing"
     = None
  /\ forall r' s' i',
       fst (ImageInfo.load_image_info ImageInfo.int_rejecting r' s'
              (ImageInfo.IdInt i')
              (snd (ImageInfo.load_image_info ImageInfo.int_rejecting
                      "/data/kitti" "testing" (ImageInfo.IdInt 0)
                      unscanned_process)))
       = Raise (AttributeError "infos").
Proof.
  destruct unscanned_process_facts as (_ & _ & _ & Hp & Hd).
  split; [reflexivity |]. split; [exact Hd |].
  intros r' s' i'.
  destruct (failed_scan_poisons_process ImageInfo.int_rejecting "/data/kitti"
              "testing" (ImageInfo.IdInt 0) 0%Z unscanned_process
              eq_refl eq_refl Hp (or_introl Hd)) as (_ & _ & Hlater).
  now rewrite Hlater.
Defined.

Lemma settled_call_changes_nothing_witness :
  ImageInfo.instance ImageInfo.after_first_call <> None
  /\ snd (ImageInfo.load_image_info ImageInfo.int_rejecting "/elsewhere"
            "testing" (ImageInfo.IdInt 5) ImageInfo.after_first_call)
     = ImageInfo.after_first_call.
Proof.
  assert (H : ImageInfo.instance ImageInfo.after_first_call <> None)
    by (vm_compute; discriminate).
  split; [exact H |].
  exact (settled_call_changes_nothing ImageInfo.int_rejecting "/elsewhere"
           "testing" (ImageInfo.IdInt 5) ImageInfo.after_first_call
           (or_introl H)).
Defined.
